(** * DomainMonitor: a shallow embedding of [main.go] and its verification

    The program polls WHOIS and DNS for a configured list of domains,
    fingerprints what it sees, compares the fingerprints with those of the
    previous cycle and posts a notification to webhooks when a domain
    appears, changes or disappears.

    Layout of the development:
    - [GoBase]    run-time values shared by everything: Go's [(T, error)]
                  results, decimal and hexadecimal printing, [time.Time];
    - [SHA256]    crypto/sha256 (FIPS 180-4), executable;
    - [Monitor]   the functions of [main.go], in the order of the source;
    - [Pipeline]  the pipeline of the specification (observe, detect,
                  dispatch), which the program is proved to refine;
    - the theorems. *)

From Stdlib Require Import ZArith Lia Ascii String.
From stdpp Require Import base gmap strings list fin_maps.

Local Open Scope string_scope.
Local Open Scope Z_scope.

(* ===================================================================== *)
(** ** Run-time values *)
(* ===================================================================== *)

Module GoBase.

(** A Go function of type [func(...) (T, error)]: either the value or the
    text of the error. *)
Inductive result (A : Type) : Type :=
| Ok (a : A)
| Err (e : string).
Arguments Ok {A} a.
Arguments Err {A} e.

Definition is_ok {A} (r : result A) : bool :=
  match r with Ok _ => true | Err _ => false end.

(** *** Printing numbers *)

Definition digit_char (d : Z) : ascii :=
  ascii_of_nat (Z.to_nat (if d <? 10 then 48 + d else 87 + d)).

(** [digits_rev base fuel n]: the digits of [n >= 0], least significant
    first; [fuel] bounds the number of digits produced. *)
Fixpoint digits_rev (base : Z) (fuel : nat) (n : Z) : list ascii :=
  match fuel with
  | O => []
  | S fuel' =>
      if n <? base then [digit_char n]
      else digit_char (n mod base) :: digits_rev base fuel' (n / base)
  end.

Definition string_of_chars (l : list ascii) : string :=
  fold_right String EmptyString l.

Definition chars_of_string (s : string) : list ascii :=
  list_ascii_of_string s.

Definition decimal (n : Z) : string :=
  string_of_chars (rev (digits_rev 10 80 n)).

(** Go's [appendInt(b, x, width)]: decimal, zero-padded to [width], with a
    leading minus sign for negative numbers. *)
Definition appendInt (x : Z) (width : nat) : string :=
  let body := rev (digits_rev 10 80 (Z.abs x)) in
  let pad := repeat "0"%char (width - length body) in
  (if x <? 0 then "-" else "") ++ string_of_chars (pad ++ body).

(** [%d] *)
Definition fmt_d (x : Z) : string :=
  (if x <? 0 then "-" else "") ++ decimal (Z.abs x).

(** *** time.Time

    A time is an instant together with the zone it is displayed in.  The
    instant is kept as Go keeps it for times without a monotonic reading:
    seconds since January 1 of year 1, 00:00:00 UTC, and nanoseconds within
    the second.  A nil [loc] pointer means UTC, as in Go; any other location
    is represented by the zone in effect at the instant. *)
Record Location := { zoneName : string; zoneOffset : Z }.

Record Time := { sec : Z; nsec : Z; loc : option Location }.

(** [time.Time{}] *)
Definition zeroTime : Time := {| sec := 0; nsec := 0; loc := None |}.

Definition locName (t : Time) : string :=
  match loc t with None => "UTC" | Some l => zoneName l end.
Definition locOffset (t : Time) : Z :=
  match loc t with None => 0 | Some l => zoneOffset l end.

(** Civil date of a day number counted from 0001-01-01 (day 0), proleptic
    Gregorian calendar; the shift by 306 days moves the start of the year
    to March 1 so that the leap day comes last. *)
Definition civil (days : Z) : Z * Z * Z :=
  let z := days + 306 in
  let era := z / 146097 in
  let doe := z mod 146097 in
  let yoe := (doe - doe / 1460 + doe / 36524 - doe / 146096) / 365 in
  let doy := doe - (365 * yoe + yoe / 4 - yoe / 100) in
  let mp := (5 * doy + 2) / 153 in
  let d := doy - (153 * mp + 2) / 5 + 1 in
  let m := if mp <? 10 then mp + 3 else mp - 9 in
  let y := yoe + era * 400 + (if m <=? 2 then 1 else 0) in
  (y, m, d).

(** The fractional second of layout [.999999999]: nothing when zero,
    otherwise a dot and nine digits with the trailing zeros removed. *)
Fixpoint drop_trailing_zeros (l : list ascii) : list ascii :=
  match l with
  | [] => []
  | c :: r =>
      match drop_trailing_zeros r with
      | [] => if decide (c = "0"%char) then [] else [c]
      | r' => c :: r'
      end
  end.

Definition formatNano (ns : Z) : string :=
  match drop_trailing_zeros (chars_of_string (appendInt ns 9)) with
  | [] => ""
  | ds => "." ++ string_of_chars ds
  end.

Definition formatZone (offset : Z) : string :=
  let zone := Z.quot offset 60 in
  (if zone <? 0 then "-" else "+")
    ++ appendInt (Z.abs zone / 60) 2 ++ appendInt (Z.abs zone mod 60) 2.

(** [Time.String]: layout ["2006-01-02 15:04:05.999999999 -0700 MST"].
    A zone without a name prints its offset in place of the abbreviation. *)
Definition Time_String (t : Time) : string :=
  let abs := sec t + locOffset t in
  let '(y, m, d) := civil (abs / 86400) in
  let sod := abs mod 86400 in
  appendInt y 4 ++ "-" ++ appendInt m 2 ++ "-" ++ appendInt d 2 ++ " "
    ++ appendInt (sod / 3600) 2 ++ ":" ++ appendInt (sod / 60 mod 60) 2
    ++ ":" ++ appendInt (sod mod 60) 2 ++ formatNano (nsec t) ++ " "
    ++ formatZone (locOffset t) ++ " "
    ++ (if decide (locName t = "") then formatZone (locOffset t)
        else locName t).

End GoBase.
Export GoBase.

(* ===================================================================== *)
(** ** crypto/sha256 *)
(* ===================================================================== *)

Module SHA256.

Definition wrap32 (x : Z) : Z := x mod 2 ^ 32.

Definition add32 (x y : Z) : Z := wrap32 (x + y).

(** [bits.RotateLeft32(x, -n)] *)
Definition rotr (n x : Z) : Z :=
  Z.lor (Z.shiftr x n) (wrap32 (Z.shiftl x (32 - n))).

Definition not32 (x : Z) : Z := Z.lxor x (2 ^ 32 - 1).

(** The first primes, by trial division. *)
Definition is_prime (n : Z) : bool :=
  (1 <? n) && forallb (fun d => negb (n mod d =? 0))
                      (map Z.of_nat (seq 2 (Z.to_nat (Z.sqrt n) - 1))).

Definition primes (count : nat) : list Z :=
  take count (filter (fun n => is_prime n = true)
                     (map Z.of_nat (seq 2 400))).

(** Integer cube root by bisection on [lo <= root < hi]. *)
Fixpoint cbrt_search (fuel : nat) (n lo hi : Z) : Z :=
  match fuel with
  | O => lo
  | S fuel' =>
      if hi - lo <=? 1 then lo
      else let mid := (lo + hi) / 2 in
           if mid * mid * mid <=? n then cbrt_search fuel' n mid hi
           else cbrt_search fuel' n lo mid
  end.

Definition cbrt (n : Z) : Z := cbrt_search 200 n 0 (2 ^ 40).

(** Initial hash value: the first 32 bits of the fractional parts of the
    square roots of the first 8 primes. *)
Definition init : list Z :=
  Eval vm_compute in map (fun p => wrap32 (Z.sqrt (p * 2 ^ 64))) (primes 8).

(** Round constants: the first 32 bits of the fractional parts of the cube
    roots of the first 64 primes. *)
Definition K : list Z :=
  Eval vm_compute in map (fun p => wrap32 (cbrt (p * 2 ^ 96))) (primes 64).

Definition byte_val (c : ascii) : Z := Z.of_nat (nat_of_ascii c).

(** Big-endian bytes of [x], [n] of them. *)
Fixpoint be_bytes (n : nat) (x : Z) : list Z :=
  match n with
  | O => []
  | S n' => (Z.shiftr x (8 * Z.of_nat n')) mod 256 :: be_bytes n' x
  end.

(** Padding: 0x80, zeros up to 56 mod 64, then the bit length on 8 bytes. *)
Definition pad (msg : list Z) : list Z :=
  let len := Z.of_nat (length msg) in
  let zeros := Z.to_nat ((55 - len) mod 64) in
  msg ++ [128] ++ repeat 0 zeros ++ be_bytes 8 (8 * len).

Fixpoint be_words (fuel : nat) (bs : list Z) : list Z :=
  match fuel, bs with
  | S fuel', b0 :: b1 :: b2 :: b3 :: rest =>
      (b0 * 16777216 + b1 * 65536 + b2 * 256 + b3) :: be_words fuel' rest
  | _, _ => []
  end.

Definition nth_word (l : list Z) (i : nat) : Z := nth i l 0.

Definition sigma0 (x : Z) : Z :=
  Z.lxor (Z.lxor (rotr 7 x) (rotr 18 x)) (Z.shiftr x 3).
Definition sigma1 (x : Z) : Z :=
  Z.lxor (Z.lxor (rotr 17 x) (rotr 19 x)) (Z.shiftr x 10).
Definition Sigma0 (x : Z) : Z :=
  Z.lxor (Z.lxor (rotr 2 x) (rotr 13 x)) (rotr 22 x).
Definition Sigma1 (x : Z) : Z :=
  Z.lxor (Z.lxor (rotr 6 x) (rotr 11 x)) (rotr 25 x).
Definition Ch (x y z : Z) : Z :=
  Z.lxor (Z.land x y) (Z.land (not32 x) z).
Definition Maj (x y z : Z) : Z :=
  Z.lxor (Z.lxor (Z.land x y) (Z.land x z)) (Z.land y z).

(** Message schedule: [w] holds the words computed so far, newest first. *)
Fixpoint schedule (n : nat) (w : list Z) : list Z :=
  match n with
  | O => w
  | S n' =>
      let v := add32 (add32 (sigma1 (nth_word w 1)) (nth_word w 6))
                     (add32 (sigma0 (nth_word w 14)) (nth_word w 15)) in
      schedule n' (v :: w)
  end.

Definition round (st : list Z) (kw : Z * Z) : list Z :=
  match st with
  | [a; b; c; d; e; f; g; h] =>
      let t1 := add32 (add32 (add32 h (Sigma1 e)) (add32 (Ch e f g) kw.1))
                      kw.2 in
      let t2 := add32 (Sigma0 a) (Maj a b c) in
      [add32 t1 t2; a; b; c; add32 d t1; e; f; g]
  | _ => st
  end.

Definition block (h : list Z) (ws : list Z) : list Z :=
  let w := rev (schedule 48 (rev ws)) in
  zip_with add32 h (fold_left round (zip K w) h).

Fixpoint blocks (fuel : nat) (h : list Z) (ws : list Z) : list Z :=
  match fuel with
  | O => h
  | S fuel' =>
      match ws with
      | [] => h
      | _ => blocks fuel' (block h (take 16 ws)) (drop 16 ws)
      end
  end.

(** [sha256.Sum256]: the digest as 32 bytes. *)
Definition Sum256 (data : string) : list Z :=
  let bs := pad (map byte_val (chars_of_string data)) in
  let ws := be_words (length bs) bs in
  flat_map (be_bytes 4) (blocks (length ws) init ws).

(** [fmt.Sprintf("%x", digest)] on a byte array: two lower-case
    hexadecimal digits per byte. *)
Definition hex (bs : list Z) : string :=
  string_of_chars
    (flat_map (fun b => [digit_char (b / 16); digit_char (b mod 16)]) bs).

End SHA256.

(* ===================================================================== *)
(** ** The program *)
(* ===================================================================== *)

Module Monitor.

(** The line feed that ends every line the program prints. *)
Definition nl : string := String (ascii_of_nat 10) EmptyString.

(** *** Configuration and observations

    Field names are those of the source; a trailing underscore marks a
    name Rocq cannot take as it is ([Type] is a keyword, [Domain] is also a
    type, [Webhooks] is a field of two structs). *)

Record Webhook := { Type_ : string; URL : string }.

Record Domain := { Name : string; Webhooks : list Webhook }.

Record Config := {
  Interval : Z;
  Domains : list Domain;
  Webhooks_ : list Webhook
}.

Record DomainInfo := {
  Domain_ : string;
  RegistrarTag : string;
  NameServers : list string;
  CreationDate : Time;
  ExpiryDate : Time;
  UpdatedDate : Time;
  IPAddress : string
}.

(** What [ParseWHOIS] reads of whoisparser's result.  [Registrar] is a
    pointer to a contact record, which the parser leaves nil when the answer
    names no registrar; [Domain] is a pointer that the parser always sets
    when it returns no error, so its four fields are kept flat, the dates
    still as the registry wrote them. *)
Record Contact := { Contact_Name : string }.

Record WhoisInfo := {
  Registrar : option Contact;
  Domain_NameServers : list string;
  Domain_CreatedDate : string;
  Domain_ExpirationDate : string;
  Domain_UpdatedDate : string
}.

(** *** What goes out

    A webhook payload before it is serialised: [json.Marshal] cannot fail on
    maps of strings and integers, and the receiver reads the value back. *)
#[local] Unset Elimination Schemes.
Inductive JSON : Type :=
| JString (s : string)
| JNumber (n : Z)
| JObject (fields : list (string * JSON))
| JArray (items : list JSON).
#[local] Set Elimination Schemes.

Definition json_Marshal (v : JSON) : result JSON := Ok v.

Record Request := {
  Method : string;
  Target : string;
  ContentType : string;
  Body : JSON
}.

(** *** The outside world

    Everything the program asks of its libraries and of the network.  The
    network may answer differently each time it is asked: a WHOIS or DNS
    query carries the position in the cycle's domain list of the entry that
    asks (each entry asks at most once per cycle), an HTTP request the number
    of requests sent before it.  [rangeKeys] is the order in which Go's
    [range] visits the keys of a map, which the language leaves open. *)
Record Env := {
  os_Open : string -> result string;
  yaml_Decode : string -> result Config;
  whois_Whois : nat -> string -> result string;
  whoisparser_Parse : string -> result WhoisInfo;
  net_LookupIP : nat -> string -> result (list string);
  time_Parse : string -> string -> result Time;
  http_NewRequest : string -> string -> result unit;
  client_Do : nat -> Request -> result Z;
  rangeKeys : gmap string string -> list string
}.

(** [range] visits every key once. *)
Definition range_ok (E : Env) : Prop :=
  forall m : gmap string string, rangeKeys E m ≡ₚ elements (dom m).

(** *** Program state

    Maps are reference values in Go: a [map[string]string] variable holds a
    pointer.  [heap] is the store of the maps allocated so far and a map
    value is an index into it.  [stdout] holds the lines printed, [posts] the
    requests handed to the HTTP client, [sleeps] the durations slept, each
    oldest first. *)
Definition mapref := nat.

Record State := {
  heap : list (gmap string string);
  stdout : list string;
  posts : list Request;
  sleeps : list Z
}.

Definition initial : State :=
  {| heap := []; stdout := []; posts := []; sleeps := [] |}.

(** A computation either finishes with a value or panics; nothing in the
    program recovers from a panic, which therefore ends the process. *)
Inductive Res (A : Type) : Type :=
| Done (a : A) (s : State)
| Panicked (msg : string) (s : State).
Arguments Done {A} a s.
Arguments Panicked {A} msg s.

Definition M (A : Type) : Type := State -> Res A.

#[export] Instance M_ret : MRet M := fun A a s => Done a s.
#[export] Instance M_bind : MBind M := fun A B f m s =>
  match m s with
  | Done a s' => f a s'
  | Panicked msg s' => Panicked msg s'
  end.

Definition panic {A} (msg : string) : M A := fun s => Panicked msg s.

Definition final {A} (r : Res A) : State :=
  match r with Done _ s => s | Panicked _ s => s end.

Definition panicked {A} (r : Res A) : bool :=
  match r with Done _ _ => false | Panicked _ _ => true end.

Definition nil_dereference : string :=
  "runtime error: invalid memory address or nil pointer dereference".

(** [fmt.Printf] of one line. *)
Definition Printf (line : string) : M unit := fun s =>
  Done tt {| heap := heap s; stdout := stdout s ++ [line];
             posts := posts s; sleeps := sleeps s |}.

(** [make(map[string]string)] *)
Definition make_map : M mapref := fun s =>
  Done (length (heap s))
       {| heap := heap s ++ [∅]; stdout := stdout s;
          posts := posts s; sleeps := sleeps s |}.

(** The map a map value points to; a value that points nowhere reads as
    the nil map, which is empty. *)
Definition deref (h : list (gmap string string)) (m : mapref)
  : gmap string string := default ∅ (h !! m).

(** [v, found := m[k]] *)
Definition map_load (m : mapref) (k : string) : M (option string) := fun s =>
  Done (deref (heap s) m !! k) s.

(** [m[k] = v] *)
Definition map_store (m : mapref) (k v : string) : M unit := fun s =>
  Done tt {| heap := <[m := <[k := v]> (deref (heap s) m)]> (heap s);
             stdout := stdout s; posts := posts s; sleeps := sleeps s |}.

(** The keys of a map in the order [range] visits them. *)
Definition range (E : Env) (m : mapref) : M (list string) := fun s =>
  Done (rangeKeys E (deref (heap s) m)) s.

(** [client.Do(req)] *)
Definition Do (E : Env) (req : Request) : M (result Z) := fun s =>
  Done (client_Do E (length (posts s)) req)
       {| heap := heap s; stdout := stdout s;
          posts := posts s ++ [req]; sleeps := sleeps s |}.

(** [time.Sleep(d)], [d] in nanoseconds. *)
Definition Sleep (d : Z) : M unit := fun s =>
  Done tt {| heap := heap s; stdout := stdout s;
             posts := posts s; sleeps := sleeps s ++ [d] |}.

(** *** LoadConfig *)
Definition LoadConfig (E : Env) (filePath : string) : result Config :=
  match os_Open E filePath with
  | Err err => Err err
  | Ok file =>
      match yaml_Decode E file with
      | Err err => Err err
      | Ok config =>
          Ok (if Interval config <? 5
              then {| Interval := 5; Domains := Domains config;
                      Webhooks_ := Webhooks_ config |}
              else config)
      end
  end.

(** *** parseDate *)
Definition RFC3339 : string := "2006-01-02T15:04:05Z07:00".

Definition formats : list string :=
  [ RFC3339;
    "2006-01-02T15:04:05Z";
    "2006-01-02 15:04:05";
    "2006-01-02";
    "02-Jan-2006";
    "02-Jan-2006 15:04:05 MST" ].

(** The loop of [parseDate] over the formats still to try. *)
Fixpoint parseDate_from (E : Env) (fs : list string) (dateStr : string)
  : Time :=
  match fs with
  | [] => zeroTime
  | format :: fs' =>
      match time_Parse E format dateStr with
      | Ok parsedDate => parsedDate
      | Err _ => parseDate_from E fs' dateStr
      end
  end.

Definition parseDate (E : Env) (dateStr : string) : Time :=
  parseDate_from E formats dateStr.

(** *** ParseWHOIS

    [result.Registrar.Name] is read through the pointer without a check:
    with a nil [Registrar] the call panics. *)
Definition ParseWHOIS (E : Env) (domain response : string)
  : M (result DomainInfo) :=
  match whoisparser_Parse E response with
  | Err err => mret (Err err)
  | Ok result =>
      match Registrar result with
      | None => panic nil_dereference
      | Some registrar =>
          mret (Ok
            {| Domain_ := domain;
               RegistrarTag :=
                 if decide (Contact_Name registrar ≠ "")
                 then Contact_Name registrar else "";
               NameServers := Domain_NameServers result;
               CreationDate :=
                 if decide (Domain_CreatedDate result ≠ "")
                 then parseDate E (Domain_CreatedDate result) else zeroTime;
               ExpiryDate :=
                 if decide (Domain_ExpirationDate result ≠ "")
                 then parseDate E (Domain_ExpirationDate result)
                 else zeroTime;
               UpdatedDate :=
                 if decide (Domain_UpdatedDate result ≠ "")
                 then parseDate E (Domain_UpdatedDate result) else zeroTime;
               IPAddress := "" |})
      end
  end.

(** [domainInfo.IPAddress = ip] *)
Definition set_IPAddress (info : DomainInfo) (ip : string) : DomainInfo :=
  {| Domain_ := Domain_ info;
     RegistrarTag := RegistrarTag info;
     NameServers := NameServers info;
     CreationDate := CreationDate info;
     ExpiryDate := ExpiryDate info;
     UpdatedDate := UpdatedDate info;
     IPAddress := ip |}.

(** *** ResolveIP *)
Definition ResolveIP (E : Env) (i : nat) (domain : string) : result string :=
  match net_LookupIP E i domain with
  | Err err => Err err
  | Ok [] => Err ("no IP addresses found for domain " ++ domain)
  | Ok (ip :: _) => Ok ip
  end.

(** *** HashDomainInfo *)

(** [%v] of a [[]string]. *)
Definition fmt_v_strings (l : list string) : string :=
  "[" ++ String.concat " " l ++ "]".

(** [%v] of a [DomainInfo]: the fields in declaration order between braces,
    a time through its [String] method. *)
Definition fmt_v (info : DomainInfo) : string :=
  "{" ++ Domain_ info ++ " " ++ RegistrarTag info ++ " "
      ++ fmt_v_strings (NameServers info) ++ " "
      ++ Time_String (CreationDate info) ++ " "
      ++ Time_String (ExpiryDate info) ++ " "
      ++ Time_String (UpdatedDate info) ++ " "
      ++ IPAddress info ++ "}".

Definition HashDomainInfo (info : DomainInfo) : string :=
  let data := fmt_v info in
  SHA256.hex (SHA256.Sum256 data).

(** *** SendWebhook *)

(** The description of a discord embed. *)
Definition discord_description (info : DomainInfo) : string :=
  "Details: " ++ nl
    ++ "- Domain: " ++ Domain_ info ++ nl
    ++ "- Registrar: " ++ RegistrarTag info ++ nl
    ++ "- Name Servers: " ++ fmt_v_strings (NameServers info) ++ nl
    ++ "- Creation Date: " ++ Time_String (CreationDate info) ++ nl
    ++ "- Expiry Date: " ++ Time_String (ExpiryDate info) ++ nl
    ++ "- Updated Date: " ++ Time_String (UpdatedDate info) ++ nl
    ++ "- IP Address: " ++ IPAddress info.

(** The [switch] on the webhook type: the payload, [None] for the
    [default] branch.  The discord branch reads the fields of [domainInfo]
    and panics when the pointer is nil. *)
Definition build_payload (webhook : Webhook) (message : string)
    (domainInfo : option DomainInfo) : M (option (result JSON)) :=
  if decide (Type_ webhook = "pagerduty") then
    mret (Some (json_Marshal (JObject
      [ ("payload", JObject [ ("summary", JString message);
                              ("severity", JString "info");
                              ("source", JString "domain-monitor") ]);
        ("routing_key", JString (URL webhook));
        ("event_action", JString "trigger") ])))
  else if decide (Type_ webhook = "teams") then
    mret (Some (json_Marshal (JObject [ ("text", JString message) ])))
  else if decide (Type_ webhook = "discord") then
    match domainInfo with
    | None => panic nil_dereference
    | Some info =>
        let embed := JObject
          [ ("title", JString message);
            ("description", JString (discord_description info));
            ("color", JNumber 3447003) ] in
        mret (Some (json_Marshal (JObject [ ("embeds", JArray [embed]) ])))
    end
  else mret None.

Definition SendWebhook (E : Env) (webhook : Webhook) (message : string)
    (domainInfo : option DomainInfo) : M (result unit) :=
  built ← build_payload webhook message domainInfo;
  match built with
  | None => mret (Err ("unsupported webhook type: " ++ Type_ webhook))
  | Some (Err err) => mret (Err err)
  | Some (Ok payload) =>
      match http_NewRequest E "POST" (URL webhook) with
      | Err err => mret (Err err)
      | Ok _ =>
          resp ← Do E {| Method := "POST"; Target := URL webhook;
                         ContentType := "application/json";
                         Body := payload |};
          match resp with
          | Err err => mret (Err err)
          | Ok StatusCode =>
              if 300 <=? StatusCode
              then mret (Err ("received non-2xx response status: "
                                ++ fmt_d StatusCode))
              else mret (Ok ())
          end
      end
  end.

(** *** MonitorDomains *)

(** The loop that the source writes out for every list of webhooks:
    [[
      for _, webhook := range webhooks {
          if err := SendWebhook(webhook, message, domainInfo); err != nil {
              fmt.Printf("Error sending webhook for %s: %s\n", name, err)
          }
      }
    ]] *)
Fixpoint sendAll (E : Env) (webhooks : list Webhook) (name message : string)
    (domainInfo : option DomainInfo) : M unit :=
  match webhooks with
  | [] => mret ()
  | webhook :: rest =>
      err ← SendWebhook E webhook message domainInfo;
      match err with
      | Err err =>
          Printf ("Error sending webhook for " ++ name ++ ": " ++ err ++ nl)
      | Ok _ => mret ()
      end;;
      sendAll E rest name message domainInfo
  end.

Definition enabled_message (name : string) : string :=
  "Monitoring enabled for domain: " ++ name.
Definition changed_message (name : string) : string :=
  "Domain information changed for: " ++ name.
Definition finished_message (name : string) : string :=
  "Monitoring finished for domain: " ++ name.

(** The body of the first loop, for the entry at position [i]. *)
Definition monitorDomain (E : Env) (config : Config)
    (previousStates currentStates : mapref) (i : nat) (domain : Domain)
  : M unit :=
  match whois_Whois E i (Name domain) with
  | Err err =>
      Printf ("Error fetching WHOIS information for " ++ Name domain
                ++ ": " ++ err ++ nl)
  | Ok response =>
      parsed ← ParseWHOIS E (Name domain) response;
      match parsed with
      | Err err =>
          Printf ("Error parsing WHOIS information for " ++ Name domain
                    ++ ": " ++ err ++ nl)
      | Ok domainInfo =>
          match ResolveIP E i (Name domain) with
          | Err err =>
              Printf ("Error resolving IP address for " ++ Name domain
                        ++ ": " ++ err ++ nl)
          | Ok ip =>
              let domainInfo := set_IPAddress domainInfo ip in
              let hash := HashDomainInfo domainInfo in
              map_store currentStates (Name domain) hash;;
              previous ← map_load previousStates (Name domain);
              match previous with
              | None =>
                  let message := enabled_message (Name domain) in
                  sendAll E (Webhooks domain) (Name domain) message
                          (Some domainInfo);;
                  sendAll E (Webhooks_ config) (Name domain) message
                          (Some domainInfo)
              | Some previousHash =>
                  if decide (previousHash ≠ hash) then
                    let message := changed_message (Name domain) in
                    sendAll E (Webhooks domain) (Name domain) message
                            (Some domainInfo);;
                    sendAll E (Webhooks_ config) (Name domain) message
                            (Some domainInfo)
                  else mret ()
              end
          end
      end
  end.

(** [for _, domain := range config.Domains], from position [i] on. *)
Fixpoint domainLoop (E : Env) (config : Config)
    (previousStates currentStates : mapref) (i : nat) (domains : list Domain)
  : M unit :=
  match domains with
  | [] => mret ()
  | domain :: rest =>
      monitorDomain E config previousStates currentStates i domain;;
      domainLoop E config previousStates currentStates (S i) rest
  end.

(** The inner loop of the second phase: the webhooks of every configured
    entry that carries the name. *)
Fixpoint sendOwn (E : Env) (domains : list Domain)
    (domainName message : string) : M unit :=
  match domains with
  | [] => mret ()
  | domain :: rest =>
      (if decide (Name domain = domainName)
       then sendAll E (Webhooks domain) domainName message None
       else mret ());;
      sendOwn E rest domainName message
  end.

(** [for domainName := range previousStates], over the keys still to
    visit. *)
Fixpoint removedLoop (E : Env) (config : Config) (currentStates : mapref)
    (keys : list string) : M unit :=
  match keys with
  | [] => mret ()
  | domainName :: rest =>
      found ← map_load currentStates domainName;
      match found with
      | Some _ => mret ()
      | None =>
          let message := finished_message domainName in
          sendOwn E (Domains config) domainName message;;
          sendAll E (Webhooks_ config) domainName message None
      end;;
      removedLoop E config currentStates rest
  end.

Definition MonitorDomains (E : Env) (config : Config) (previousStates : mapref)
  : M mapref :=
  currentStates ← make_map;
  domainLoop E config previousStates currentStates 0 (Domains config);;
  keys ← range E previousStates;
  removedLoop E config currentStates keys;;
  mret currentStates.

(** *** main *)

(** Go's [int64] wrap-around, for [time.Duration(config.Interval) *
    time.Minute]. *)
Definition wrap64 (x : Z) : Z := (x + 2 ^ 63) mod 2 ^ 64 - 2 ^ 63.

Definition Minute : Z := 60000000000.

(** How a bounded run of the endless loop ends: [main] returned, or the
    loop is still turning when the observation stops. *)
Inductive Exit := Returned | Running.

(** The [for] loop of [main], observed for [fuel] cycles.  The world of
    cycle [c] is [W c]. *)
Fixpoint main_loop (W : nat -> Env) (fuel cycle : nat) (previousStates : mapref)
  : M Exit :=
  match fuel with
  | O => mret Running
  | S fuel' =>
      match LoadConfig (W cycle) "config.yaml" with
      | Err err =>
          Printf ("Error loading config: " ++ err ++ nl);;
          mret Returned
      | Ok config =>
          previousStates ← MonitorDomains (W cycle) config previousStates;
          Sleep (wrap64 (wrap64 (Interval config) * Minute));;
          main_loop W fuel' (S cycle) previousStates
      end
  end.

Definition main (W : nat -> Env) (fuel : nat) : M Exit :=
  previousStates ← make_map;
  main_loop W fuel 0 previousStates.

End Monitor.
Export Monitor.

(* ===================================================================== *)
(** ** The pipeline of the specification *)
(* ===================================================================== *)

(** Sections 3 and 4 of the specification describe a cycle as a pipeline:
    observe every configured entry, detect the transitions against the
    previous map, dispatch them.  This module writes the cycle that way,
    with the one thing the program adds to it: an entry whose parsed answer
    names no registrar crashes the program, so that the pipeline stops
    there.  The program is proved to refine it further down. *)

Module Pipeline.

(** How a computation that leaves the state alone ends. *)
Definition ended {A} (r : Res A) : option A :=
  match r with
  | Done a _ => Some a
  | Panicked _ _ => None
  end.

(** What a cycle gets of the entry at position [i]: the observation when
    the WHOIS fetch, its parse and the DNS resolution all succeed; the line
    that reports the skip when one of them fails; a crash when the parsed
    answer has no registrar record, which [ParseWHOIS] does not survive. *)
Inductive Outcome : Type :=
| Observed (observation : DomainInfo)
| Skipped (line : string)
| Crashed.

Definition observe (E : Env) (i : nat) (domain : Domain) : Outcome :=
  match whois_Whois E i (Name domain) with
  | Err err =>
      Skipped ("Error fetching WHOIS information for " ++ Name domain
                 ++ ": " ++ err ++ nl)
  | Ok response =>
      match ended (ParseWHOIS E (Name domain) response initial) with
      | None => Crashed
      | Some (Err err) =>
          Skipped ("Error parsing WHOIS information for " ++ Name domain
                     ++ ": " ++ err ++ nl)
      | Some (Ok info) =>
          match ResolveIP E i (Name domain) with
          | Err err =>
              Skipped ("Error resolving IP address for " ++ Name domain
                         ++ ": " ++ err ++ nl)
          | Ok ip => Observed (set_IPAddress info ip)
          end
      end
  end.

(** Section 3 of the specification: a transition carries the observation
    when there is one. *)
Inductive TransitionEvent : Type :=
| Enabled (domain : Domain) (observation : DomainInfo)
| Changed (domain : Domain) (observation : DomainInfo)
| Removed (name : string).

Definition subject (ev : TransitionEvent) : string :=
  match ev with
  | Enabled d _ => Name d
  | Changed d _ => Name d
  | Removed name => name
  end.

(** What a cycle does besides updating the state map, in order: it reports
    a skipped entry, emits a transition, or crashes. *)
Inductive Step : Type :=
| Report (line : string)
| Emit (ev : TransitionEvent)
| Crash.

(** Section 4.2, rule 1: absent from [previous], Enabled; a different
    fingerprint, Changed; the same fingerprint, nothing. *)
Definition classify (previous : gmap string string) (domain : Domain)
    (observation : DomainInfo) : option TransitionEvent :=
  match previous !! Name domain with
  | None => Some (Enabled domain observation)
  | Some fingerprint =>
      if decide (fingerprint = HashDomainInfo observation) then None
      else Some (Changed domain observation)
  end.

Definition liveStep (E : Env) (previous : gmap string string) (i : nat)
    (domain : Domain) : list Step :=
  match observe E i domain with
  | Skipped line => [Report line]
  | Observed observation =>
      match classify previous domain observation with
      | Some ev => [Emit ev]
      | None => []
      end
  | Crashed => [Crash]
  end.

(** The entries are taken in order, up to the first crash. *)
Fixpoint liveSteps (E : Env) (previous : gmap string string) (i : nat)
    (domains : list Domain) : list Step :=
  match domains with
  | [] => []
  | domain :: rest =>
      match observe E i domain with
      | Crashed => [Crash]
      | _ =>
          (liveStep E previous i domain
             ++ liveSteps E previous (S i) rest)%list
      end
  end.

(** Whether the pass over the entries from position [i] on ends in a
    crash. *)
Fixpoint interrupted (E : Env) (i : nat) (domains : list Domain) : bool :=
  match domains with
  | [] => false
  | domain :: rest =>
      match observe E i domain with
      | Crashed => true
      | _ => interrupted E (S i) rest
      end
  end.

(** Section 4.2, rule 3: every domain observed this cycle, mapped to its
    fingerprint; after a crash no entry is observed any more. *)
Fixpoint nextFrom (E : Env) (i : nat) (domains : list Domain)
    (acc : gmap string string) : gmap string string :=
  match domains with
  | [] => acc
  | domain :: rest =>
      match observe E i domain with
      | Observed observation =>
          nextFrom E (S i) rest
            (<[Name domain := HashDomainInfo observation]> acc)
      | Skipped _ => nextFrom E (S i) rest acc
      | Crashed => acc
      end
  end.

Definition next (E : Env) (config : Config) : gmap string string :=
  nextFrom E 0 (Domains config) ∅.

(** Section 4.2, rule 2: Removed for every key of [previous] that the cycle
    did not observe. *)
Definition removedSteps (E : Env) (previous current : gmap string string)
  : list Step :=
  (fun name => Emit (Removed name))
    <$> filter (fun name => current !! name = None) (rangeKeys E previous).

(** The steps of a cycle: those of the configured entries, then, unless
    the pass over the entries crashed, the Removed events. *)
Definition Detect (E : Env) (config : Config)
    (previous : gmap string string) : list Step * gmap string string :=
  ((liveSteps E previous 0 (Domains config)
      ++ (if interrupted E 0 (Domains config) then []
          else removedSteps E previous (next E config)))%list,
   next E config).

(** The sinks configured for a name: those of every entry that carries
    it. *)
Definition own_sinks (config : Config) (name : string) : list Webhook :=
  flat_map Webhooks (filter (fun d => Name d = name) (Domains config)).

(** Section 4.3: an event goes to the domain's own sinks, then to the
    global ones. *)
Definition Dispatch (E : Env) (config : Config) (ev : TransitionEvent)
  : M unit :=
  match ev with
  | Enabled d o =>
      sendAll E (Webhooks d ++ Webhooks_ config)%list (Name d)
              (enabled_message (Name d)) (Some o)
  | Changed d o =>
      sendAll E (Webhooks d ++ Webhooks_ config)%list (Name d)
              (changed_message (Name d)) (Some o)
  | Removed name =>
      sendAll E (own_sinks config name ++ Webhooks_ config)%list name
              (finished_message name) None
  end.

Definition perform (E : Env) (config : Config) (st : Step) : M unit :=
  match st with
  | Report line => Printf line
  | Emit ev => Dispatch E config ev
  | Crash => panic nil_dereference
  end.

Fixpoint performAll (E : Env) (config : Config) (steps : list Step)
  : M unit :=
  match steps with
  | [] => mret ()
  | st :: rest => perform E config st;; performAll E config rest
  end.

(** Replace the map at [m] wholesale. *)
Definition set_map (m : mapref) (v : gmap string string) : M unit := fun s =>
  Done () {| heap := <[m := v]> (heap s); stdout := stdout s;
             posts := posts s; sleeps := sleeps s |}.

(** One cycle as the specification describes it: detect against the
    previous map, install the next map, dispatch. *)
Definition cycle (E : Env) (config : Config) (previousStates : mapref)
  : M mapref := fun s =>
  let '(steps, nextStates) :=
    Detect E config (deref (heap s) previousStates) in
  (currentStates ← make_map;
   set_map currentStates nextStates;;
   performAll E config steps;;
   mret currentStates) s.

(** The transitions among the steps that concern [name]. *)
Fixpoint events_about (name : string) (steps : list Step)
  : list TransitionEvent :=
  match steps with
  | [] => []
  | Report _ :: rest => events_about name rest
  | Emit ev :: rest =>
      if decide (subject ev = name) then ev :: events_about name rest
      else events_about name rest
  | Crash :: rest => events_about name rest
  end.

(** The occurrences of [name] among the entries from position [i] on that
    the cycle observed, with what it saw, in order; none after a crash. *)
Fixpoint successes (E : Env) (name : string) (i : nat)
    (domains : list Domain) : list (Domain * DomainInfo) :=
  match domains with
  | [] => []
  | domain :: rest =>
      match observe E i domain with
      | Observed observation =>
          if decide (Name domain = name)
          then (domain, observation) :: successes E name (S i) rest
          else successes E name (S i) rest
      | Skipped _ => successes E name (S i) rest
      | Crashed => []
      end
  end.

End Pipeline.
Export Pipeline.

(* ===================================================================== *)
(** ** Vocabulary of the statements *)
(* ===================================================================== *)

Local Close Scope Z_scope.
Local Open Scope list_scope.

Definition with_heap (h : list (gmap string string)) (s : State) : State :=
  {| heap := h; stdout := stdout s; posts := posts s; sleeps := sleeps s |}.

Definition res_with_heap {A} (h : list (gmap string string)) (r : Res A)
  : Res A :=
  match r with
  | Done a s => Done a (with_heap h s)
  | Panicked msg s => Panicked msg (with_heap h s)
  end.

(** A computation that neither reads nor writes the store of maps. *)
Definition heap_blind {A} (f : M A) : Prop :=
  forall s h, f (with_heap h s) = res_with_heap h (f s).

(** Every sink the configuration names. *)
Definition sinks (config : Config) : list Webhook :=
  flat_map Webhooks (Domains config) ++ Webhooks_ config.

Definition no_discord (config : Config) : Prop :=
  forall w, w ∈ sinks config -> Type_ w ≠ "discord".

(** The time a date field of a WHOIS answer is normalised to. *)
Definition normalDate (E : Env) (raw : string) : Time :=
  if decide (raw ≠ "") then parseDate E raw else zeroTime.

(** The kinds [SendWebhook] has a branch for. *)
Definition supported (w : Webhook) : bool :=
  bool_decide (Type_ w = "pagerduty" ∨ Type_ w = "teams"
               ∨ Type_ w = "discord").

Definition is_discord (w : Webhook) : bool :=
  bool_decide (Type_ w = "discord").

(** A sink that a request can be handed to the HTTP client for: its kind
    has a branch and [http.NewRequest] accepts its URL. *)
Definition deliverable (E : Env) (w : Webhook) : bool :=
  supported w && is_ok (http_NewRequest E "POST" (URL w)).

(** Reading a payload as its receiver does. *)
Fixpoint field (key : string) (fields : list (string * JSON))
  : option JSON :=
  match fields with
  | [] => None
  | (k, v) :: rest => if decide (k = key) then Some v else field key rest
  end.

Definition member (key : string) (v : JSON) : option JSON :=
  match v with
  | JObject fields => field key fields
  | _ => None
  end.

Definition text_of (v : option JSON) : option string :=
  match v with
  | Some (JString text) => Some text
  | _ => None
  end.

(** The summary a payload carries: the [text] of a teams payload, the
    [payload.summary] of a pagerduty one, the [title] of the one embed of a
    discord one. *)
Definition summary_of (body : JSON) : option string :=
  match text_of (member "text" body) with
  | Some text => Some text
  | None =>
      match text_of (member "payload" body ≫= member "summary") with
      | Some text => Some text
      | None =>
          match member "embeds" body with
          | Some (JArray [embed]) => text_of (member "title" embed)
          | _ => None
          end
      end
  end.

(** What is looked at, here, of a request handed to the HTTP client:
    where it is addressed and the summary it carries. *)
Definition on_wire (req : Request) : string * option string :=
  (Target req, summary_of (Body req)).

(** The request a sink is expected to get for a message. *)
Definition expected (message : string) (w : Webhook)
  : string * option string := (URL w, Some message).

Definition message_of (ev : TransitionEvent) : string :=
  match ev with
  | Enabled d _ => enabled_message (Name d)
  | Changed d _ => changed_message (Name d)
  | Removed name => finished_message name
  end.

Definition observation_of (ev : TransitionEvent) : option DomainInfo :=
  match ev with
  | Enabled _ o => Some o
  | Changed _ o => Some o
  | Removed _ => None
  end.

Definition event_sinks (config : Config) (ev : TransitionEvent)
  : list Webhook :=
  match ev with
  | Enabled d _ => Webhooks d ++ Webhooks_ config
  | Changed d _ => Webhooks d ++ Webhooks_ config
  | Removed name => own_sinks config name ++ Webhooks_ config
  end.

(** What a step hands to the HTTP client when it runs to its end, one
    request after the other. *)
Definition step_wire (E : Env) (config : Config) (st : Step)
  : list (string * option string) :=
  match st with
  | Report _ => []
  | Emit ev =>
      expected (message_of ev)
        <$> filter (fun w => deliverable E w = true) (event_sinks config ev)
  | Crash => []
  end.

(** A request that is about [name]: its summary is one of the three
    messages the program has for that name. *)
Definition about (name : string) (seen : string * option string) : bool :=
  bool_decide (seen.2 = Some (enabled_message name)
               ∨ seen.2 = Some (changed_message name)
               ∨ seen.2 = Some (finished_message name)).

(** A step that cannot run to its end: a crash, or an event without an
    observation that has a discord sink among its sinks. *)
Definition crashes (config : Config) (st : Step) : bool :=
  match st with
  | Report _ => false
  | Emit ev =>
      match observation_of ev with
      | Some _ => false
      | None => existsb is_discord (event_sinks config ev)
      end
  | Crash => true
  end.

(** The map the first loop has built once it is through with the entry at
    position [i], from the map it had built before. *)
Definition stored (E : Env) (i : nat) (d : Domain)
    (acc : gmap string string) : gmap string string :=
  match observe E i d with
  | Observed o => <[Name d := HashDomainInfo o]> acc
  | _ => acc
  end.


(** An entry whose WHOIS answer is fetched and parsed, and names no
    registrar. *)
Definition registrarless (E : Env) (i : nat) (domain : Domain) : Prop :=
  exists response result,
    whois_Whois E i (Name domain) = Ok response
    ∧ whoisparser_Parse E response = Ok result
    ∧ Registrar result = None.

(** Two times that show the same instant on the same clock: the same
    instant, at the same offset, under the same zone name.  Go's UTC, a nil
    location, and a location named UTC at offset 0 are two such records. *)
Definition same_clock (t u : Time) : Prop :=
  sec t = sec u ∧ nsec t = nsec u
  ∧ locOffset t = locOffset u ∧ locName t = locName u.

(** The state with one more printed line. *)
Definition printed (line : string) (s : State) : State :=
  {| heap := heap s; stdout := stdout s ++ [line];
     posts := posts s; sleeps := sleeps s |}.

(** The longest interval, in minutes, whose duration fits Go's [int64]
    nanoseconds. *)
Definition longest_interval : Z := 153722867.

(** A date field that normalises to the zero time: empty, or a string
    that no accepted layout parses. *)
Definition unreadable (E : Env) (raw : string) : Prop :=
  raw = "" ∨ forall format, format ∈ formats ->
                            is_ok (time_Parse E format raw) = false.


(** The duration [main] sleeps for after a cycle. *)
Definition pause (config : Config) : Z :=
  wrap64 (wrap64 (Interval config) * Minute).

(* ===================================================================== *)
(** ** Concrete worlds and configurations *)
(* ===================================================================== *)

Module Examples.

(** A world in which nothing answers, except that every HTTP request is
    accepted; the maps are ranged over in the order of their keys. *)
Definition silent : Env := {|
  os_Open := fun _ => Err "open config.yaml: no such file or directory";
  yaml_Decode := fun _ => Err "yaml: unmarshal errors";
  whois_Whois := fun _ _ => Err "whois: connect to whois server failed";
  whoisparser_Parse := fun _ => Err "whoisparser: domain is not found";
  net_LookupIP := fun _ _ => Err "lookup: no such host";
  time_Parse := fun _ _ => Err "parsing time: cannot parse";
  http_NewRequest := fun _ _ => Ok ();
  client_Do := fun _ _ => Ok 200%Z;
  rangeKeys := fun m => elements (dom m)
|}.

Definition teams_hook : Webhook :=
  {| Type_ := "teams"; URL := "https://outlook.example/webhook/1" |}.
Definition discord_hook : Webhook :=
  {| Type_ := "discord"; URL := "https://discord.example/api/webhooks/2" |}.

(** Two WHOIS answers for the same registration that list the same two
    name servers in opposite orders. *)
Definition answer (nameServers : list string) : WhoisInfo := {|
  Registrar := Some {| Contact_Name := "Example Registrar" |};
  Domain_NameServers := nameServers;
  Domain_CreatedDate := "";
  Domain_ExpirationDate := "";
  Domain_UpdatedDate := ""
|}.

Definition parser : string -> result WhoisInfo := fun response =>
  if decide (response = "answer A")
  then Ok (answer ["ns1.example.net"; "ns2.example.net"])
  else if decide (response = "answer B")
  then Ok (answer ["ns2.example.net"; "ns1.example.net"])
  else Err "whoisparser: domain is not found".

(** A world in which every domain is registered and resolves; the WHOIS
    server gives answer A. *)
Definition online : Env := {|
  os_Open := os_Open silent;
  yaml_Decode := yaml_Decode silent;
  whois_Whois := fun _ _ => Ok "answer A";
  whoisparser_Parse := parser;
  net_LookupIP := fun _ _ => Ok ["192.0.2.7"];
  time_Parse := time_Parse silent;
  http_NewRequest := http_NewRequest silent;
  client_Do := client_Do silent;
  rangeKeys := rangeKeys silent
|}.

(** A date parser that knows one date, written in two of the accepted
    layouts, and one instant of that day, ten o'clock UTC, written in
    RFC 3339 three ways: in UTC, with a zero offset, which [time.Parse]
    gives the local zone of a machine that runs on UTC, and with an offset
    of two hours, for which it makes up a zone without a name. *)
Definition may_first : Time :=
  {| sec := 63850118400; nsec := 0; loc := None |}.

Definition ten_utc : Time :=
  {| sec := 63850154400; nsec := 0; loc := None |}.
Definition ten_local : Time :=
  {| sec := 63850154400; nsec := 0;
     loc := Some {| zoneName := "UTC"; zoneOffset := 0 |} |}.
Definition noon_east : Time :=
  {| sec := 63850154400; nsec := 0;
     loc := Some {| zoneName := ""; zoneOffset := 7200 |} |}.

Definition one_date : string -> string -> result Time := fun layout value =>
  if decide (layout = "2006-01-02" ∧ value = "2024-05-01") then Ok may_first
  else if decide (layout = "02-Jan-2006" ∧ value = "01-May-2024")
  then Ok may_first
  else if decide (layout = RFC3339 ∧ value = "2024-05-01T10:00:00Z")
  then Ok ten_utc
  else if decide (layout = RFC3339 ∧ value = "2024-05-01T10:00:00+00:00")
  then Ok ten_local
  else if decide (layout = RFC3339 ∧ value = "2024-05-01T12:00:00+02:00")
  then Ok noon_east
  else Err "parsing time: cannot parse".

Definition dated : Env := {|
  os_Open := os_Open silent;
  yaml_Decode := yaml_Decode silent;
  whois_Whois := whois_Whois silent;
  whoisparser_Parse := fun response =>
    Ok {| Registrar := Some {| Contact_Name := "Example Registrar" |};
          Domain_NameServers := ["ns1.example.net"];
          Domain_CreatedDate := response;
          Domain_ExpirationDate := "";
          Domain_UpdatedDate := "" |};
  net_LookupIP := net_LookupIP silent;
  time_Parse := one_date;
  http_NewRequest := http_NewRequest silent;
  client_Do := client_Do silent;
  rangeKeys := rangeKeys silent
|}.

Definition teams_post (message : string) : Request :=
  {| Method := "POST"; Target := URL teams_hook;
     ContentType := "application/json";
     Body := JObject [ ("text", JString message) ] |}.

(** A state in which the previous cycle left one map, at index 0. *)
Definition after_cycle (previous : gmap string string) : State :=
  {| heap := [previous]; stdout := []; posts := []; sleeps := [] |}.

(** [example.com] was monitored and has left the configuration, which has
    two global sinks. *)
Definition two_sinks : Config :=
  {| Interval := 5; Domains := [];
     Webhooks_ := [discord_hook; teams_hook] |}.

Definition teams_only : Config :=
  {| Interval := 5; Domains := []; Webhooks_ := [teams_hook] |}.

(** [d1.example] has a discord sink of its own and is still configured;
    [e.example] has left the configuration; one global sink. *)
Definition mixed : Config :=
  {| Interval := 5;
     Domains := [ {| Name := "d1.example"; Webhooks := [discord_hook] |} ];
     Webhooks_ := [teams_hook] |}.

Definition both_known : gmap string string :=
  <["d1.example" := "fingerprint of an earlier cycle"]>
    (<["e.example" := "fingerprint of an earlier cycle"]> ∅).

(** The worlds [online] and [silent] with the keys of a map visited in
    the opposite order, which [range] is free to choose. *)
Definition online_rev : Env := {|
  os_Open := os_Open online;
  yaml_Decode := yaml_Decode online;
  whois_Whois := whois_Whois online;
  whoisparser_Parse := whoisparser_Parse online;
  net_LookupIP := net_LookupIP online;
  time_Parse := time_Parse online;
  http_NewRequest := http_NewRequest online;
  client_Do := client_Do online;
  rangeKeys := fun m => reverse (elements (dom m))
|}.

(** As [online_rev], but the WHOIS fetch of the first entry fails. *)
Definition first_fetch_fails : Env := {|
  os_Open := os_Open online;
  yaml_Decode := yaml_Decode online;
  whois_Whois := fun i name =>
    if decide (i = 0) then Err "whois: connect to whois server failed"
    else whois_Whois online i name;
  whoisparser_Parse := whoisparser_Parse online;
  net_LookupIP := net_LookupIP online;
  time_Parse := time_Parse online;
  http_NewRequest := http_NewRequest online;
  client_Do := client_Do online;
  rangeKeys := fun m => reverse (elements (dom m))
|}.

(** As [online], but the registry answers the second entry of the list
    with the name servers in the other order. *)
Definition changing : Env := {|
  os_Open := os_Open online;
  yaml_Decode := yaml_Decode online;
  whois_Whois := fun i _ =>
    if decide (i = 0) then Ok "answer A" else Ok "answer B";
  whoisparser_Parse := whoisparser_Parse online;
  net_LookupIP := net_LookupIP online;
  time_Parse := time_Parse online;
  http_NewRequest := http_NewRequest online;
  client_Do := client_Do online;
  rangeKeys := rangeKeys online
|}.

Definition example_com : Domain :=
  {| Name := "example.com"; Webhooks := [] |}.

(** [example.com] listed twice; one global sink. *)
Definition twice : Config :=
  {| Interval := 5; Domains := [example_com; example_com];
     Webhooks_ := [teams_hook] |}.

Definition once : Config :=
  {| Interval := 5; Domains := [example_com]; Webhooks_ := [teams_hook] |}.

(** A world in which the configuration file loads: interval 1, no
    domains, one global sink. *)
Definition loadable : Env := {|
  os_Open := fun _ => Ok "interval: 1";
  yaml_Decode := fun _ =>
    Ok {| Interval := 1; Domains := []; Webhooks_ := [teams_hook] |};
  whois_Whois := whois_Whois silent;
  whoisparser_Parse := whoisparser_Parse silent;
  net_LookupIP := net_LookupIP silent;
  time_Parse := time_Parse silent;
  http_NewRequest := http_NewRequest silent;
  client_Do := client_Do silent;
  rangeKeys := rangeKeys silent
|}.

(** The file cannot be read in the second cycle only. *)
Definition flaky (cycle : nat) : Env :=
  if decide (cycle = 1) then silent else loadable.

(** An answer that names no registrar, as the parser returns it for a
    registry that publishes none. *)
Definition anonymous : WhoisInfo := {|
  Registrar := None;
  Domain_NameServers := ["ns1.example.net"];
  Domain_CreatedDate := "";
  Domain_ExpirationDate := "";
  Domain_UpdatedDate := ""
|}.

(** As [online], but the registry names no registrar. *)
Definition unregistered : Env := {|
  os_Open := os_Open online;
  yaml_Decode := yaml_Decode online;
  whois_Whois := whois_Whois online;
  whoisparser_Parse := fun _ => Ok anonymous;
  net_LookupIP := net_LookupIP online;
  time_Parse := time_Parse online;
  http_NewRequest := http_NewRequest online;
  client_Do := client_Do online;
  rangeKeys := rangeKeys online
|}.

(** What [ParseWHOIS] makes of the two answers. *)
Definition observed (nameServers : list string) : DomainInfo := {|
  Domain_ := "example.com";
  RegistrarTag := "Example Registrar";
  NameServers := nameServers;
  CreationDate := zeroTime;
  ExpiryDate := zeroTime;
  UpdatedDate := zeroTime;
  IPAddress := ""
|}.

End Examples.

(* ===================================================================== *)
(** ** Facts about the program's building blocks *)
(* ===================================================================== *)

Lemma range_ok_elements E :
  (forall m, rangeKeys E m = elements (dom m)) -> range_ok E.
Proof. intros H m. by rewrite H. Qed.

(** Visiting the keys in the opposite order is as good an order. *)
Lemma range_ok_reverse E :
  (forall m, rangeKeys E m = reverse (elements (dom m))) -> range_ok E.
Proof. intros H m. rewrite H. apply reverse_Permutation. Qed.

Lemma with_heap_same s : with_heap (heap s) s = s.
Proof. by destruct s. Qed.

Lemma heap_with_heap h s : heap (with_heap h s) = h.
Proof. done. Qed.

Lemma with_heap_twice h h' s : with_heap h (with_heap h' s) = with_heap h s.
Proof. done. Qed.

Lemma bind_run {A B} (m : M A) (f : A -> M B) s :
  (m ≫= f) s =
  match m s with
  | Done a s' => f a s'
  | Panicked msg s' => Panicked msg s'
  end.
Proof. done. Qed.

Lemma bind_assoc_run {A B C} (m : M A) (f : A -> M B) (g : B -> M C) s :
  ((m ≫= f) ≫= g) s = (m ≫= (fun a => f a ≫= g)) s.
Proof. rewrite !bind_run. by destruct (m s). Qed.

Lemma heap_blind_ret {A} (a : A) : heap_blind (mret a).
Proof. done. Qed.

Lemma heap_blind_bind {A B} (m : M A) (f : A -> M B) :
  heap_blind m -> (forall a, heap_blind (f a)) -> heap_blind (m ≫= f).
Proof.
  intros Hm Hf s h. rewrite !bind_run, Hm.
  destruct (m s) as [a s'|msg s']; simpl; [apply Hf | done].
Qed.

Lemma heap_blind_Printf line : heap_blind (Printf line).
Proof. done. Qed.

Lemma heap_blind_preserves {A} (f : M A) s :
  heap_blind f -> heap (final (f s)) = heap s.
Proof.
  intros Hf. specialize (Hf s (heap s)). rewrite with_heap_same in Hf.
  rewrite Hf. by destruct (f s).
Qed.

Section BuildingBlocks.
Context (E : Env).

Lemma heap_blind_Do req : heap_blind (Do E req).
Proof. done. Qed.

Lemma heap_blind_build_payload w msg info :
  heap_blind (build_payload w msg info).
Proof.
  unfold build_payload. repeat case_decide; try done.
  by destruct info.
Qed.

Lemma heap_blind_SendWebhook w msg info :
  heap_blind (SendWebhook E w msg info).
Proof.
  unfold SendWebhook. apply heap_blind_bind.
  - apply heap_blind_build_payload.
  - intros [[payload|err]|]; try done.
    destruct (http_NewRequest E "POST" (URL w)); [|done].
    apply heap_blind_bind; [apply heap_blind_Do|].
    intros [code|err]; [|done]. by case_match.
Qed.

Lemma heap_blind_sendAll ws name msg info :
  heap_blind (sendAll E ws name msg info).
Proof.
  induction ws as [|w ws IH]; [done|]. simpl.
  apply heap_blind_bind; [apply heap_blind_SendWebhook|].
  intros err. apply heap_blind_bind; [by destruct err as [[]|err]|].
  intros _. apply IH.
Qed.

(** With an observation in hand no payload panics. *)
Lemma SendWebhook_Some_done w msg info s :
  exists r s', SendWebhook E w msg (Some info) s = Done r s'.
Proof.
  unfold SendWebhook, build_payload. rewrite bind_run.
  repeat case_decide; simpl;
    try (destruct (http_NewRequest E "POST" (URL w)); [|by eauto];
         rewrite bind_run; simpl;
         destruct (client_Do E (length (posts s)) _); [|by eauto];
         case_match; by eauto).
  by eauto.
Qed.

Lemma sendAll_Some_done ws name msg info s :
  exists s', sendAll E ws name msg (Some info) s = Done () s'.
Proof.
  revert s. induction ws as [|w ws IH]; intros s; [by eexists|].
  simpl. rewrite !bind_run.
  destruct (SendWebhook_Some_done w msg info s) as (r & s' & ->).
  destruct r as [[]|err]; simpl; apply IH.
Qed.

(** A sink whose delivery fails is reported and the loop goes on with the
    sinks after it. *)
Lemma sendAll_continues w ws name msg info s err s' :
  SendWebhook E w msg info s = Done (Err err) s' ->
  sendAll E (w :: ws) name msg info s =
  (Printf ("Error sending webhook for " +:+ name +:+ ": " +:+ err +:+ nl);;
   sendAll E ws name msg info) s'.
Proof. intros Hw. simpl. by rewrite bind_run, Hw. Qed.

Lemma sendAll_app ws1 ws2 name msg info s :
  sendAll E (ws1 ++ ws2) name msg info s =
  (sendAll E ws1 name msg info;; sendAll E ws2 name msg info) s.
Proof.
  revert s. induction ws1 as [|w ws1 IH]; intros s; [done|].
  simpl. rewrite !bind_run.
  destruct (SendWebhook E w msg info s) as [err s'|m s']; [|done].
  destruct err as [[]|err]; rewrite !bind_run; simpl;
    rewrite IH; by rewrite bind_run.
Qed.

End BuildingBlocks.

(* ===================================================================== *)
(** ** The program refines the pipeline *)
(* ===================================================================== *)

Section Refinement.
Context (E : Env) (config : Config).

Lemma heap_blind_Dispatch ev : heap_blind (Dispatch E config ev).
Proof. destruct ev; apply heap_blind_sendAll. Qed.

Lemma heap_blind_perform st : heap_blind (perform E config st).
Proof.
  destruct st; [apply heap_blind_Printf | apply heap_blind_Dispatch | done].
Qed.

Lemma heap_blind_performAll steps : heap_blind (performAll E config steps).
Proof.
  induction steps as [|st steps IH]; [done|]. simpl.
  apply heap_blind_bind; [apply heap_blind_perform | by intros []].
Qed.

Lemma performAll_app l1 l2 s :
  performAll E config (l1 ++ l2) s =
  (performAll E config l1;; performAll E config l2) s.
Proof.
  revert s. induction l1 as [|st l1 IH]; intros s; [done|].
  simpl. rewrite !bind_run.
  destruct (perform E config st s) as [[] s'|m s']; [|done].
  rewrite IH. by rewrite bind_run.
Qed.

Lemma res_with_heap_twice {A} h h' (r : Res A) :
  res_with_heap h (res_with_heap h' r) = res_with_heap h r.
Proof. by destruct r. Qed.

(** [ParseWHOIS] neither reads nor writes the state. *)
Lemma ParseWHOIS_run domain response s :
  ParseWHOIS E domain response s =
  match ended (ParseWHOIS E domain response initial) with
  | Some parsed => Done parsed s
  | None => Panicked nil_dereference s
  end.
Proof.
  unfold ParseWHOIS.
  destruct (whoisparser_Parse E response) as [result|err]; [|done].
  by destruct (Registrar result).
Qed.

(** The parsed answers that make [ParseWHOIS] panic. *)
Lemma ParseWHOIS_panics domain response :
  ended (ParseWHOIS E domain response initial) = None ↔
  exists result,
    whoisparser_Parse E response = Ok result ∧ Registrar result = None.
Proof.
  unfold ParseWHOIS.
  destruct (whoisparser_Parse E response) as [result|err]; simpl.
  - destruct (Registrar result) as [registrar|] eqn:Hreg; simpl.
    + split; [done|]. intros (r & [= <-] & Hr). congruence.
    + split; [|done]. intros _. by exists result.
  - split; [done|]. by intros (r & Hr & _).
Qed.

Lemma observe_Crashed i d : observe E i d = Crashed ↔ registrarless E i d.
Proof.
  unfold observe, registrarless.
  destruct (whois_Whois E i (Name d)) as [response|err].
  - pose proof (ParseWHOIS_panics (Name d) response) as Hp.
    destruct (ended (ParseWHOIS E (Name d) response initial))
      as [[info|err]|].
    + split; [by destruct (ResolveIP E i (Name d))|].
      intros (r & result & [= <-] & Hres).
      discriminate (proj2 Hp (ex_intro _ result Hres)).
    + split; [done|]. intros (r & result & [= <-] & Hres).
      discriminate (proj2 Hp (ex_intro _ result Hres)).
    + split; [|done]. intros _.
      destruct (proj1 Hp eq_refl) as (result & Hr & Hn).
      by exists response, result.
  - split; [done|]. by intros (r & result & Hr & _).
Qed.

(** The body of the first loop, read through [observe]. *)
Lemma monitorDomain_observe p c i d s :
  monitorDomain E config p c i d s =
  match observe E i d with
  | Skipped line => Printf line s
  | Crashed => Panicked nil_dereference s
  | Observed o =>
      (map_store c (Name d) (HashDomainInfo o);;
       previous ← map_load p (Name d);
       match previous with
       | None =>
           sendAll E (Webhooks d) (Name d) (enabled_message (Name d))
                   (Some o);;
           sendAll E (Webhooks_ config) (Name d)
                   (enabled_message (Name d)) (Some o)
       | Some previousHash =>
           if decide (previousHash ≠ HashDomainInfo o) then
             sendAll E (Webhooks d) (Name d) (changed_message (Name d))
                     (Some o);;
             sendAll E (Webhooks_ config) (Name d)
                     (changed_message (Name d)) (Some o)
           else mret ()
       end) s
  end.
Proof.
  unfold monitorDomain, observe.
  destruct (whois_Whois E i (Name d)) as [response|err]; [|done].
  rewrite bind_run, ParseWHOIS_run.
  destruct (ended _) as [[info|err]|]; [|done|done].
  by destruct (ResolveIP E i (Name d)).
Qed.

Lemma deref_insert_eq h c m :
  c < length h -> deref (<[c := m]> h) c = m.
Proof. intros Hc. unfold deref. by rewrite list_lookup_insert_eq. Qed.

Lemma deref_insert_ne h c p m :
  p ≠ c -> deref (<[c := m]> h) p = deref h p.
Proof. intros Hc. unfold deref. by rewrite list_lookup_insert_ne. Qed.

Lemma insert_deref h c : <[c := deref h c]> h = h.
Proof.
  unfold deref. destruct (h !! c) as [m|] eqn:Hm; simpl.
  - by apply list_insert_id.
  - apply list_insert_ge. by apply lookup_ge_None.
Qed.

Lemma make_map_run s :
  make_map s = Done (length (heap s)) (with_heap (heap s ++ [∅]) s).
Proof. done. Qed.

Lemma range_run m s :
  range E m s = Done (rangeKeys E (deref (heap s) m)) s.
Proof. done. Qed.

Lemma set_map_run c m s :
  set_map c m s = Done () (with_heap (<[c := m]> (heap s)) s).
Proof. done. Qed.

Lemma map_store_run c k v s :
  map_store c k v s =
  Done () (with_heap (<[c := <[k := v]> (deref (heap s) c)]> (heap s)) s).
Proof. done. Qed.

Lemma map_load_run p k s :
  map_load p k s = Done (deref (heap s) p !! k) s.
Proof. done. Qed.

(** Dispatch of an event that carries an observation: it runs to the
    end, leaves the store alone, and the two loops of the source are the
    pipeline's single pass over both lists. *)
Lemma sends_Some_run own name msg o s h :
  exists s',
    sendAll E (own ++ Webhooks_ config) name msg (Some o) s = Done () s'
    ∧ heap s' = heap s
    ∧ (sendAll E own name msg (Some o);;
       sendAll E (Webhooks_ config) name msg (Some o)) (with_heap h s) =
      Done () (with_heap h s').
Proof.
  destruct (sendAll_Some_done E (own ++ Webhooks_ config) name msg o s)
    as [s' Hs'].
  pose proof (heap_blind_preserves _ s
    (heap_blind_sendAll E (own ++ Webhooks_ config) name msg (Some o)))
    as Hh.
  rewrite Hs' in Hh. exists s'. split; [done|]. split; [done|].
  rewrite <- sendAll_app, heap_blind_sendAll. by rewrite Hs'.
Qed.

(** One entry of the first loop that does not crash: the sends are those
    of the pipeline's step and do not panic; the store only touches the
    current map. *)
Lemma monitorDomain_run p c i d s :
  p ≠ c -> c < length (heap s) ->
  observe E i d ≠ Crashed ->
  exists s',
    performAll E config (liveStep E (deref (heap s) p) i d) s = Done () s'
    ∧ heap s' = heap s
    ∧ monitorDomain E config p c i d s =
      Done () (with_heap
                 (<[c := stored E i d (deref (heap s) c)]> (heap s)) s').
Proof.
  intros Hpc Hc Hobs. rewrite monitorDomain_observe.
  unfold liveStep, stored.
  destruct (observe E i d) as [o|line|]; [| |done].
  - rewrite bind_run, map_store_run, bind_run, map_load_run.
    rewrite heap_with_heap, (deref_insert_ne _ _ _ _ Hpc).
    set (h' := <[c := _]> (heap s)). unfold classify.
    destruct (deref (heap s) p !! Name d) as [fp|] eqn:Hprev.
    + destruct (decide (fp = HashDomainInfo o)) as [->|Hne].
      * rewrite decide_False by (intros H; by apply H).
        by exists s.
      * rewrite decide_True by done.
        destruct (sends_Some_run (Webhooks d) (Name d)
                    (changed_message (Name d)) o s h')
          as (s' & Hs' & Hh & Hb).
        exists s'. split; [|by split].
        simpl. by rewrite bind_run, Hs'.
    + destruct (sends_Some_run (Webhooks d) (Name d)
                  (enabled_message (Name d)) o s h')
        as (s' & Hs' & Hh & Hb).
      exists s'. split; [|by split].
      simpl. by rewrite bind_run, Hs'.
  - simpl. rewrite bind_run. simpl. eexists. split; [done|].
    split; [done|]. rewrite insert_deref. by destruct s.
Qed.

(** The first loop: it performs the pipeline's live steps, up to a crash
    if there is one, and leaves in the current map what it observed until
    then. *)
Lemma domainLoop_run p c ds : forall i s,
  p ≠ c -> c < length (heap s) ->
  domainLoop E config p c i ds s =
  res_with_heap (<[c := nextFrom E i ds (deref (heap s) c)]> (heap s))
    (performAll E config (liveSteps E (deref (heap s) p) i ds) s).
Proof.
  induction ds as [|d ds IH]; intros i s Hpc Hc.
  - simpl. by rewrite insert_deref, with_heap_same.
  - simpl. rewrite bind_run.
    assert (observe E i d = Crashed ∨ observe E i d ≠ Crashed)
      as [Hcr|Hok] by (destruct (observe E i d); [right|right|left]; done).
    { rewrite monitorDomain_observe, Hcr. simpl.
      by rewrite insert_deref, with_heap_same. }
    destruct (monitorDomain_run p c i d s Hpc Hc Hok)
      as (s1 & Hp1 & Hh1 & ->).
    set (acc1 := stored E i d (deref (heap s) c)).
    set (s1' := with_heap (<[c := acc1]> (heap s)) s1).
    assert (Hc1 : c < length (heap s1')).
    { simpl. by rewrite length_insert. }
    rewrite (IH (S i) s1' Hpc Hc1).
    assert (Hd1 : deref (heap s1') p = deref (heap s) p).
    { simpl. by apply deref_insert_ne. }
    assert (Hd2 : deref (heap s1') c = acc1).
    { simpl. by apply deref_insert_eq. }
    rewrite Hd1, Hd2. simpl heap. rewrite list_insert_insert_eq.
    assert (Hsteps :
      performAll E config (liveSteps E (deref (heap s) p) i (d :: ds)) s
      = performAll E config (liveSteps E (deref (heap s) p) (S i) ds) s1).
    { assert (liveSteps E (deref (heap s) p) i (d :: ds)
              = liveStep E (deref (heap s) p) i d
                  ++ liveSteps E (deref (heap s) p) (S i) ds) as ->.
      { simpl. by destruct (observe E i d). }
      by rewrite performAll_app, bind_run, Hp1. }
    assert (Hnext : nextFrom E i (d :: ds) (deref (heap s) c)
                    = nextFrom E (S i) ds acc1).
    { simpl. unfold acc1, stored. by destruct (observe E i d). }
    change (match observe E i d with
            | Crashed => [Crash]
            | _ => liveStep E (deref (heap s) p) i d
                     ++ liveSteps E (deref (heap s) p) (S i) ds
            end) with (liveSteps E (deref (heap s) p) i (d :: ds)).
    change (match observe E i d with
            | Observed observation =>
                nextFrom E (S i) ds
                  (<[Name d := HashDomainInfo observation]>
                     (deref (heap s) c))
            | Skipped _ => nextFrom E (S i) ds (deref (heap s) c)
            | Crashed => deref (heap s) c
            end) with (nextFrom E i (d :: ds) (deref (heap s) c)).
    rewrite Hsteps, Hnext. unfold s1'.
    rewrite (heap_blind_performAll _ s1), res_with_heap_twice.
    done.
Qed.

(** The inner loop of the second phase visits the sinks of every entry
    that carries the name. *)
Lemma sendOwn_run ds name msg s :
  sendOwn E ds name msg s =
  sendAll E (flat_map Webhooks (filter (fun d => Name d = name) ds))
          name msg None s.
Proof.
  revert s. induction ds as [|d ds IH]; intros s; [done|].
  simpl. rewrite bind_run, filter_cons.
  destruct (decide (Name d = name)) as [Hn|Hn].
  - simpl. rewrite sendAll_app, bind_run.
    destruct (sendAll E (Webhooks d) name msg None s) as [[] s'|m s'];
      [apply IH | done].
  - simpl. apply IH.
Qed.

(** The second loop, over the keys still to visit. *)
Lemma removedLoop_run c keys : forall s,
  removedLoop E config c keys s =
  performAll E config
    ((fun name => Emit (Removed name))
       <$> filter (fun name => deref (heap s) c !! name = None) keys) s.
Proof.
  induction keys as [|k keys IH]; intros s; [done|].
  simpl. rewrite !bind_run, map_load_run, filter_cons.
  destruct (deref (heap s) c !! k) as [fp|] eqn:Hk.
  - rewrite decide_False by done. simpl. apply IH.
  - rewrite decide_True by done. simpl.
    rewrite !bind_run, sendOwn_run.
    fold (own_sinks config k).
    pose proof (heap_blind_preserves _ s
      (heap_blind_sendAll E (own_sinks config k ++ Webhooks_ config) k
         (finished_message k) None)) as Hh.
    rewrite sendAll_app, bind_run in Hh |- *.
    destruct (sendAll E (own_sinks config k) k (finished_message k) None s)
      as [[] s1|m s1]; [|done].
    destruct (sendAll E (Webhooks_ config) k (finished_message k) None s1)
      as [[] s2|m s2]; [|done].
    simpl in Hh. rewrite IH, Hh. done.
Qed.

(** The pass over the entries panics exactly when it is interrupted; the
    events it dispatches carry an observation and cannot make it panic. *)
Lemma liveSteps_run P ds : forall i s,
  if interrupted E i ds
  then panicked (performAll E config (liveSteps E P i ds) s) = true
  else exists s', performAll E config (liveSteps E P i ds) s = Done () s'.
Proof.
  induction ds as [|d ds IH]; intros i s; [by eexists|].
  simpl. destruct (observe E i d) as [o|line|] eqn:Hobs; [| |done].
  all: assert (exists s1,
         performAll E config (liveStep E P i d) s = Done () s1)
         as [s1 Hs1];
    [ unfold liveStep; rewrite Hobs
    | specialize (IH (S i) s1); destruct (interrupted E (S i) ds);
      rewrite performAll_app, bind_run, Hs1; exact IH ].
  - unfold classify.
    destruct (P !! Name d) as [fp|]; [case_decide|]; simpl;
      try (by eexists); rewrite bind_run;
      edestruct sendAll_Some_done as [s1 ->]; by eexists.
  - by eexists.
Qed.

(** One call of [MonitorDomains] is one cycle of the pipeline. *)
Lemma MonitorDomains_cycle p s :
  p < length (heap s) ->
  MonitorDomains E config p s = cycle E config p s.
Proof.
  intros Hp. unfold MonitorDomains, cycle, Detect.
  set (P := deref (heap s) p).
  rewrite !bind_run, make_map_run.
  set (c := length (heap s)). set (s0 := with_heap (heap s ++ [∅]) s).
  assert (Hpc : p ≠ c) by (unfold c; lia).
  assert (Hc : c < length (heap s0)).
  { simpl. rewrite length_app. simpl. unfold c. lia. }
  assert (HP : deref (heap s0) p = P).
  { unfold P, deref. simpl. by rewrite lookup_app_l. }
  assert (H0 : deref (heap s0) c = ∅).
  { unfold deref, c. simpl. by rewrite list_lookup_middle. }
  rewrite bind_run, (domainLoop_run p c (Domains config) 0 s0 Hpc Hc).
  rewrite HP, H0. fold (next E config).
  rewrite (bind_run (set_map c (next E config))), set_map_run.
  rewrite (bind_run (performAll E config _)), performAll_app, bind_run.
  rewrite (heap_blind_performAll (liveSteps E P 0 (Domains config)) s0).
  pose proof (liveSteps_run P (Domains config) 0 s0) as Hlive.
  destruct (interrupted E 0 (Domains config)).
  - by destruct (performAll E config (liveSteps E P 0 (Domains config)) s0).
  - destruct Hlive as [s1 Hs1]. rewrite Hs1. simpl.
    change (heap s ++ [∅]) with (heap s0).
    rewrite bind_run, range_run, heap_with_heap.
    rewrite (deref_insert_ne _ _ _ _ Hpc), HP.
    rewrite bind_run, removedLoop_run.
    rewrite heap_with_heap, (deref_insert_eq _ _ _ Hc).
    by fold (removedSteps E P (next E config)).
Qed.

End Refinement.

(* ===================================================================== *)
(** ** What a dispatch hands to the HTTP client *)
(* ===================================================================== *)

Lemma supported_true w :
  supported w = true ↔
  Type_ w = "pagerduty" ∨ Type_ w = "teams" ∨ Type_ w = "discord".
Proof. unfold supported. apply bool_decide_eq_true. Qed.

Lemma supported_false w :
  supported w = false ↔
  Type_ w ≠ "pagerduty" ∧ Type_ w ≠ "teams" ∧ Type_ w ≠ "discord".
Proof.
  unfold supported. rewrite bool_decide_eq_false. tauto.
Qed.

(** What a call that does not panic returns, and what it leaves behind. *)
Lemma SendWebhook_run (E : Env) (w : Webhook) (msg : string)
    (info : option DomainInfo) (s : State) :
  (info = None -> Type_ w ≠ "discord") ->
  exists r s',
    SendWebhook E w msg info s = Done r s'
    ∧ heap s' = heap s ∧ stdout s' = stdout s ∧ sleeps s' = sleeps s
    ∧ ((deliverable E w = false
        ∧ posts s' = posts s
        ∧ is_ok r = false
        ∧ (supported w = false ->
           r = Err ("unsupported webhook type: " +:+ Type_ w)))
       ∨ (deliverable E w = true
          ∧ exists req,
              posts s' = posts s ++ [req]
              ∧ on_wire req = expected msg w
              ∧ Method req = "POST"
              ∧ ContentType req = "application/json"
              ∧ r = match client_Do E (length (posts s)) req with
                    | Err err => Err err
                    | Ok code =>
                        if (300 <=? code)%Z
                        then Err ("received non-2xx response status: "
                                    +:+ fmt_d code)
                        else Ok ()
                    end)).
Proof.
  intros Hinfo. unfold SendWebhook, build_payload, deliverable.
  rewrite bind_run.
  destruct (decide (Type_ w = "pagerduty")) as [Hp|Hp];
    [|destruct (decide (Type_ w = "teams")) as [Ht|Ht];
      [|destruct (decide (Type_ w = "discord")) as [Hd|Hd]]].
  4: { (* no branch for the kind *)
    simpl. do 2 eexists. split; [done|]. do 3 (split; [done|]). left.
    assert (supported w = false) as -> by (by apply supported_false).
    done. }
  3: destruct info as [o|]; [|by destruct Hinfo].
  all: assert (supported w = true) as ->
         by (apply supported_true; tauto).
  all: simpl; destruct (http_NewRequest E "POST" (URL w)) as [[]|err];
         simpl;
         [ rewrite bind_run; simpl;
           match goal with
           | |- context [client_Do ?e ?n ?req] =>
               destruct (client_Do e n req) as [code|err] eqn:Hdo
           end;
           [ destruct (300 <=? code)%Z eqn:Hcode | ];
           do 2 eexists; (split; [done|]); do 3 (split; [done|]);
           right; (split; [done|]); eexists; (split; [done|]);
           rewrite Hdo, ?Hcode; done
         | do 2 eexists; (split; [done|]); do 3 (split; [done|]);
           left; done ].
Qed.

Lemma is_discord_false w : is_discord w = false ↔ Type_ w ≠ "discord".
Proof. unfold is_discord. apply bool_decide_eq_false. Qed.

Lemma is_discord_true w : is_discord w = true ↔ Type_ w = "discord".
Proof. unfold is_discord. apply bool_decide_eq_true. Qed.

Lemma existsb_is_discord_false ws :
  existsb is_discord ws = false ↔ forall w, w ∈ ws -> Type_ w ≠ "discord".
Proof.
  induction ws as [|w ws IH]; simpl.
  - split; [|done]. intros _ w Hw. by inversion Hw.
  - rewrite orb_false_iff, IH, is_discord_false. split.
    + intros [Hw Hws] w' Hw'.
      apply elem_of_cons in Hw' as [->|Hw']; [done | by apply Hws].
    + intros H. split; [apply H; by left|].
      intros w' Hw'. apply H. by right.
Qed.

Lemma existsb_is_discord_true ws :
  existsb is_discord ws = true ↔ exists w, w ∈ ws ∧ Type_ w = "discord".
Proof.
  induction ws as [|w ws IH]; simpl.
  - split; [done|]. intros (w & Hw & _). by inversion Hw.
  - rewrite orb_true_iff, IH, is_discord_true. split.
    + intros [Hw|(w' & Hw' & Hd)].
      * exists w. split; [by left | done].
      * exists w'. split; [by right | done].
    + intros (w' & Hw' & Hd).
      apply elem_of_cons in Hw' as [->|Hw']; [by left|].
      right. by exists w'.
Qed.

(** The loop over a list of sinks, when none of them makes it panic. *)
Lemma sendAll_run (E : Env) (name msg : string) (info : option DomainInfo)
    (ws : list Webhook) : forall s,
  (info = None -> forall w, w ∈ ws -> Type_ w ≠ "discord") ->
  exists s' reqs lines,
    sendAll E ws name msg info s = Done () s'
    ∧ heap s' = heap s ∧ sleeps s' = sleeps s
    ∧ posts s' = posts s ++ reqs
    ∧ on_wire <$> reqs
      = expected msg <$> filter (fun w => deliverable E w = true) ws
    ∧ stdout s' = stdout s ++ lines
    ∧ Forall (fun line => exists err,
                line = "Error sending webhook for " +:+ name +:+ ": "
                         +:+ err +:+ nl) lines.
Proof.
  induction ws as [|w ws IH]; intros s Hinfo.
  - exists s, [], []. by rewrite !app_nil_r.
  - simpl. rewrite bind_run.
    destruct (SendWebhook_run E w msg info s)
      as (r & s1 & -> & Hh1 & Ho1 & Hs1 & Hcase).
    { intros Hn. apply (Hinfo Hn). by left. }
    rewrite bind_run.
    assert (Hrest : info = None -> forall w', w' ∈ ws ->
                    Type_ w' ≠ "discord").
    { intros Hn w' Hw'. apply (Hinfo Hn). by right. }
    assert (exists s2 line1, match r with
              | Err err =>
                  Printf ("Error sending webhook for " +:+ name +:+ ": "
                            +:+ err +:+ nl)
              | Ok _ => mret ()
              end s1 = Done () s2
              ∧ heap s2 = heap s1 ∧ sleeps s2 = sleeps s1
              ∧ posts s2 = posts s1 ∧ stdout s2 = stdout s1 ++ line1
              ∧ Forall (fun line => exists err,
                  line = "Error sending webhook for " +:+ name +:+ ": "
                           +:+ err +:+ nl) line1)
      as (s2 & line1 & -> & Hh2 & Hs2 & Hp2 & Ho2 & Hl1).
    { destruct r as [[]|err].
      - exists s1, []. by rewrite app_nil_r.
      - eexists _, [_]. repeat split; try done.
        constructor; [by eexists | constructor]. }
    destruct (IH s2 Hrest)
      as (s3 & reqs & lines & -> & Hh3 & Hs3 & Hp3 & Hw3 & Ho3 & Hl3).
    rewrite filter_cons.
    destruct Hcase as [(Hd & Hp1 & _)|(Hd & req & Hp1 & Hw1 & _)];
      rewrite Hd.
    + exists s3, reqs, (line1 ++ lines).
      split; [done|]. split; [congruence|]. split; [congruence|].
      split; [by rewrite Hp3, Hp2, Hp1|]. split; [done|].
      split; [by rewrite Ho3, Ho2, Ho1, app_assoc|].
      by apply Forall_app.
    + exists s3, (req :: reqs), (line1 ++ lines).
      split; [done|]. split; [congruence|]. split; [congruence|].
      split; [by rewrite Hp3, Hp2, Hp1, <- app_assoc|].
      split; [by rewrite !fmap_cons, Hw1, Hw3|].
      split; [by rewrite Ho3, Ho2, Ho1, app_assoc|].
      by apply Forall_app.
Qed.

(** An event without an observation does not get past a discord sink. *)
Lemma sendAll_None_panics (E : Env) (name msg : string) (ws : list Webhook) :
  forall s,
    (exists w, w ∈ ws ∧ Type_ w = "discord") ->
    panicked (sendAll E ws name msg None s) = true.
Proof.
  induction ws as [|w ws IH]; intros s (w' & Hw' & Hd).
  - by inversion Hw'.
  - simpl. rewrite bind_run.
    destruct (decide (Type_ w = "discord")) as [Hw|Hw].
    + unfold SendWebhook, build_payload. by rewrite bind_run, Hw.
    + destruct (SendWebhook_run E w msg None s (fun _ => Hw))
        as (r & s1 & -> & _).
      rewrite bind_run.
      apply elem_of_cons in Hw' as [->|Hw']; [done|].
      destruct r as [[]|err]; simpl; apply IH; by exists w'.
Qed.

Lemma Dispatch_sendAll (E : Env) (config : Config) (ev : TransitionEvent) :
  Dispatch E config ev
  = sendAll E (event_sinks config ev) (subject ev) (message_of ev)
            (observation_of ev).
Proof. by destruct ev. Qed.

Lemma crashes_false config st :
  crashes config st = false ↔
  match st with
  | Report _ => True
  | Emit ev =>
      observation_of ev = None ->
      forall w, w ∈ event_sinks config ev -> Type_ w ≠ "discord"
  | Crash => False
  end.
Proof.
  destruct st as [line|ev|]; simpl; [done| |done].
  destruct (observation_of ev) as [o|].
  - split; [by intros _ ?|done].
  - rewrite existsb_is_discord_false. split; [by intros H _|].
    intros H. by apply H.
Qed.

(** A run of steps none of which crashes: what the client was handed, and
    what is left alone. *)
Lemma performAll_run (E : Env) (config : Config) (steps : list Step) :
  forall s,
    Forall (fun st => crashes config st = false) steps ->
    exists s' reqs lines,
      performAll E config steps s = Done () s'
      ∧ heap s' = heap s ∧ sleeps s' = sleeps s
      ∧ posts s' = posts s ++ reqs
      ∧ on_wire <$> reqs = flat_map (step_wire E config) steps
      ∧ stdout s' = stdout s ++ lines.
Proof.
  induction steps as [|st steps IH]; intros s Hsafe.
  - exists s, [], []. by rewrite !app_nil_r.
  - apply Forall_cons in Hsafe as [Hst Hsafe].
    simpl. rewrite bind_run.
    assert (exists s1 reqs1 lines1,
              perform E config st s = Done () s1
              ∧ heap s1 = heap s ∧ sleeps s1 = sleeps s
              ∧ posts s1 = posts s ++ reqs1
              ∧ on_wire <$> reqs1 = step_wire E config st
              ∧ stdout s1 = stdout s ++ lines1)
      as (s1 & reqs1 & lines1 & -> & Hh1 & Hs1 & Hp1 & Hw1 & Ho1).
    { destruct st as [line|ev|]; simpl; [| |done].
      - eexists _, [], [line]. by rewrite app_nil_r.
      - rewrite Dispatch_sendAll.
        apply crashes_false in Hst.
        destruct (sendAll_run E (subject ev) (message_of ev)
                    (observation_of ev) (event_sinks config ev) s Hst)
          as (s1 & reqs1 & lines1 & H1 & H2 & H3 & H4 & H5 & H6 & _).
        by exists s1, reqs1, lines1. }
    destruct (IH s1 Hsafe)
      as (s2 & reqs2 & lines2 & -> & Hh2 & Hs2 & Hp2 & Hw2 & Ho2).
    exists s2, (reqs1 ++ reqs2), (lines1 ++ lines2).
    split; [done|]. split; [congruence|]. split; [congruence|].
    split; [by rewrite Hp2, Hp1, app_assoc|].
    split; [by rewrite fmap_app, Hw1, Hw2|].
    by rewrite Ho2, Ho1, app_assoc.
Qed.

Lemma performAll_panics (E : Env) (config : Config) (steps : list Step) :
  forall s,
    Exists (fun st => crashes config st = true) steps ->
    panicked (performAll E config steps s) = true.
Proof.
  induction steps as [|st steps IH]; intros s Hex; [by inversion Hex|].
  simpl. rewrite bind_run.
  destruct (crashes config st) eqn:Hst.
  - destruct st as [line|ev|]; [done| |done]. simpl in Hst |- *.
    rewrite Dispatch_sendAll.
    destruct (observation_of ev) as [o|] eqn:Hobs; [done|].
    apply existsb_is_discord_true in Hst.
    pose proof (sendAll_None_panics E (subject ev) (message_of ev)
                  (event_sinks config ev) s Hst) as Hp.
    by destruct (sendAll E _ _ _ None s).
  - apply Exists_cons in Hex as [Hex|Hex]; [congruence|].
    destruct (performAll_run E config [st] s) as (s1 & _ & _ & H1 & _).
    { by repeat constructor. }
    simpl in H1. rewrite bind_run in H1.
    destruct (perform E config st s) as [[] s1'|m s1']; [|done].
    by apply IH.
Qed.

Lemma performAll_panicked (E : Env) (config : Config) (steps : list Step) s :
  panicked (performAll E config steps s) = true ↔
  Exists (fun st => crashes config st = true) steps.
Proof.
  split; [|apply performAll_panics].
  intros Hp.
  destruct (decide (Exists (fun st => crashes config st = true) steps))
    as [Hex|Hnex]; [done|].
  apply not_Exists_Forall in Hnex; [|apply _].
  destruct (performAll_run E config steps s) as (s' & _ & _ & Hrun & _).
  { eapply Forall_impl; [exact Hnex|]. simpl. intros st Hst.
    by destruct (crashes config st). }
  by rewrite Hrun in Hp.
Qed.

(* ===================================================================== *)
(** ** How a cycle ends *)
(* ===================================================================== *)

Section Completion.
Context (E : Env) (config : Config).

Lemma own_sinks_sinks name w :
  w ∈ own_sinks config name ++ Webhooks_ config -> w ∈ sinks config.
Proof.
  unfold own_sinks, sinks. rewrite !elem_of_app.
  intros [Hw|Hw]; [left|by right].
  apply list_elem_of_In, in_flat_map in Hw as (d & Hd & Hw).
  rewrite <- list_elem_of_In in Hd.
  apply list_elem_of_filter in Hd as [_ Hd].
  apply list_elem_of_In, in_flat_map. exists d.
  split; [by apply list_elem_of_In | done].
Qed.

(** The state in which a cycle starts to perform its steps. *)
Lemma cycle_steps p s :
  cycle E config p s
  = match performAll E config (Detect E config (deref (heap s) p)).1
            (with_heap (heap s ++ [next E config]) s) with
    | Done _ s' => Done (length (heap s)) s'
    | Panicked msg s' => Panicked msg s'
    end.
Proof.
  unfold cycle, Detect. simpl fst.
  rewrite bind_run, make_map_run, bind_run, set_map_run, bind_run.
  simpl heap.
  by rewrite (insert_app_r_alt _ _ _ _ (Nat.le_refl _)), Nat.sub_diag.
Qed.

(** The store after a cycle, however the cycle ends: the maps that were
    there, untouched, and one new map that holds what the cycle observed,
    up to the crash if there was one. *)
Lemma cycle_heap p s :
  heap (final (cycle E config p s)) = heap s ++ [next E config].
Proof.
  rewrite cycle_steps.
  pose proof (heap_blind_preserves _
    (with_heap (heap s ++ [next E config]) s)
    (heap_blind_performAll E config
       (Detect E config (deref (heap s) p)).1)) as Hh.
  by destruct (performAll E config _ _).
Qed.

Lemma cycle_returns p s q s' :
  cycle E config p s = Done q s' -> q = length (heap s).
Proof.
  rewrite cycle_steps.
  destruct (performAll E config _ _) as [[] s''|m s'']; [|done].
  by intros [= <- _].
Qed.

Lemma cycle_panicked p s :
  panicked (cycle E config p s) = true ↔
  Exists (fun st => crashes config st = true)
         (Detect E config (deref (heap s) p)).1.
Proof.
  rewrite <- (performAll_panicked E config _
                (with_heap (heap s ++ [next E config]) s)).
  rewrite cycle_steps. by destruct (performAll E config _ _).
Qed.

(** A cycle none of whose steps crashes. *)
Lemma cycle_run p s :
  Forall (fun st => crashes config st = false)
         (Detect E config (deref (heap s) p)).1 ->
  exists s' reqs lines,
    cycle E config p s = Done (length (heap s)) s'
    ∧ heap s' = heap s ++ [next E config]
    ∧ sleeps s' = sleeps s
    ∧ posts s' = posts s ++ reqs
    ∧ on_wire <$> reqs
      = flat_map (step_wire E config) (Detect E config (deref (heap s) p)).1
    ∧ stdout s' = stdout s ++ lines.
Proof.
  intros Hsafe.
  destruct (performAll_run E config _
              (with_heap (heap s ++ [next E config]) s) Hsafe)
    as (s' & reqs & lines & Hrun & Hh & Hs & Hp & Hw & Ho).
  exists s', reqs, lines. by rewrite cycle_steps, Hrun.
Qed.

Lemma not_panicked_safe p s :
  panicked (cycle E config p s) = false ->
  Forall (fun st => crashes config st = false)
         (Detect E config (deref (heap s) p)).1.
Proof.
  intros Hp. apply Forall_forall. intros st Hst.
  destruct (crashes config st) eqn:Hc; [|done].
  assert (panicked (cycle E config p s) = true); [|congruence].
  apply cycle_panicked, Exists_exists. by exists st.
Qed.

End Completion.

(* ===================================================================== *)
(** ** What the pipeline detects *)
(* ===================================================================== *)

Section Detection.
Context (E : Env).

Lemma events_about_app name l1 l2 :
  events_about name (l1 ++ l2) =
  events_about name l1 ++ events_about name l2.
Proof.
  induction l1 as [|[line|ev|] l1 IH]; simpl; [done..| |done].
  case_decide; simpl; by rewrite IH.
Qed.

Lemma classify_subject P d o ev :
  classify P d o = Some ev -> subject ev = Name d.
Proof.
  unfold classify. destruct (P !! Name d); [case_decide|];
    intros [= <-]; done.
Qed.

(** Every occurrence is classified on its own, against the previous
    map. *)
Lemma events_about_live P name ds : forall i,
  events_about name (liveSteps E P i ds) =
  omap (fun '(d, o) => classify P d o) (successes E name i ds).
Proof.
  induction ds as [|d ds IH]; intros i; [done|].
  simpl. unfold liveStep.
  destruct (observe E i d) as [o|line|]; [| |done].
  2: { rewrite events_about_app. apply IH. }
  rewrite events_about_app, IH.
  destruct (decide (Name d = name)) as [Hn|Hn].
  - simpl. destruct (classify P d o) as [ev|] eqn:Hev; [|done].
    simpl. by rewrite decide_True by (by rewrite (classify_subject _ _ _ _ Hev)).
  - destruct (classify P d o) as [ev|] eqn:Hev; [|done].
    simpl. by rewrite decide_False by (by rewrite (classify_subject _ _ _ _ Hev)).
Qed.

(** The entry of a name in the next map is the fingerprint of the last
    occurrence the cycle observed. *)
Lemma nextFrom_lookup name ds : forall i acc,
  nextFrom E i ds acc !! name =
  match last (successes E name i ds) with
  | Some (_, o) => Some (HashDomainInfo o)
  | None => acc !! name
  end.
Proof.
  induction ds as [|d ds IH]; intros i acc; [done|].
  simpl. destruct (observe E i d) as [o|line|]; [|apply IH|done].
  rewrite IH.
  destruct (decide (Name d = name)) as [Hn|Hn].
  - rewrite last_cons.
    destruct (last (successes E name (S i) ds)) as [[]|]; [done|].
    subst name. by rewrite lookup_insert_eq.
  - destruct (last (successes E name (S i) ds)) as [[]|]; [done|].
    by rewrite lookup_insert_ne.
Qed.

Lemma next_lookup config name :
  next E config !! name =
  (fun '(_, o) => HashDomainInfo o)
    <$> last (successes E name 0 (Domains config)).
Proof.
  unfold next. rewrite nextFrom_lookup.
  by destruct (last _) as [[]|].
Qed.

Lemma successes_elem name ds : forall i d o,
  (d, o) ∈ successes E name i ds ->
  exists j, ds !! j = Some d ∧ Name d = name
            ∧ observe E (i + j) d = Observed o.
Proof.
  induction ds as [|d' ds IH]; intros i d o Hin; [by inversion Hin|].
  simpl in Hin.
  assert (Hrest : (d, o) ∈ successes E name (S i) ds ->
                  exists j, (d' :: ds) !! j = Some d ∧ Name d = name
                            ∧ observe E (i + j) d = Observed o).
  { intros H. destruct (IH _ _ _ H) as (j & Hj & Hn & Ho).
    exists (S j). split; [done|]. split; [done|].
    by replace (i + S j) with (S i + j) by lia. }
  destruct (observe E i d') as [o'|line|] eqn:Hobs;
    [|by apply Hrest|by inversion Hin].
  destruct (decide (Name d' = name)) as [Hn|Hn]; [|by apply Hrest].
  apply elem_of_cons in Hin as [[= -> ->]|Hin]; [|by apply Hrest].
  exists 0. by rewrite Nat.add_0_r.
Qed.

Lemma elem_successes name ds : forall i j d o,
  interrupted E i ds = false ->
  ds !! j = Some d -> Name d = name -> observe E (i + j) d = Observed o ->
  (d, o) ∈ successes E name i ds.
Proof.
  induction ds as [|d' ds IH]; intros i j d o Hint Hj Hn Ho; [done|].
  simpl in Hint |- *. destruct j as [|j]; simpl in Hj.
  - injection Hj as ->. rewrite Nat.add_0_r in Ho. rewrite Ho.
    rewrite decide_True by done. by left.
  - assert (interrupted E (S i) ds = false ->
            (d, o) ∈ successes E name (S i) ds) as Hin.
    { intros Hint'. apply (IH _ j); [done..|].
      by replace (S i + j) with (i + S j) by lia. }
    destruct (observe E i d'); [case_decide|..]; try done;
      [right|..]; by apply Hin.
Qed.

Lemma successes_absent name (ds : list Domain) : forall i,
  name ∉ Name <$> ds -> successes E name i ds = [].
Proof.
  induction ds as [|d ds IH]; intros i Hn; [done|].
  simpl. rewrite fmap_cons, not_elem_of_cons in Hn.
  destruct Hn as [Hd Hn]. rewrite (IH _ Hn).
  destruct (observe E i d); [|done..]. by rewrite decide_False.
Qed.

(** With pairwise distinct names, a name is observed at most once. *)
Lemma successes_NoDup name (ds : list Domain) : forall i,
  NoDup (Name <$> ds) -> (length (successes E name i ds) ≤ 1)%nat.
Proof.
  induction ds as [|d ds IH]; intros i Hnd; [simpl; lia|].
  rewrite fmap_cons, NoDup_cons in Hnd. destruct Hnd as [Hd Hnd].
  simpl. destruct (observe E i d); [|by apply IH|simpl; lia].
  case_decide; [|by apply IH].
  subst name. rewrite (successes_absent _ _ _ Hd). simpl. lia.
Qed.

Lemma filter_eq_NoDup (name : string) l :
  NoDup l ->
  filter (fun x => x = name) l = if decide (name ∈ l) then [name] else [].
Proof.
  induction 1 as [|x l Hx Hnd IH]; [done|].
  rewrite filter_cons, IH.
  destruct (decide (x = name)) as [->|Hne].
  - rewrite decide_False by done.
    rewrite decide_True by (by left). done.
  - destruct (decide (name ∈ l)) as [Hin|Hin].
    + rewrite decide_True by (by right). done.
    + rewrite decide_False; [done|].
      rewrite not_elem_of_cons. split; [done|done].
Qed.

Lemma events_about_removed name (l : list string) :
  events_about name ((fun n => Emit (Removed n)) <$> l) =
  Removed <$> filter (fun x => x = name) l.
Proof.
  induction l as [|x l IH]; [done|].
  rewrite fmap_cons, filter_cons. simpl.
  case_decide; simpl; by rewrite IH.
Qed.

(** A key of the previous map that the cycle did not observe is removed
    once; no other name is. *)
Lemma events_about_removedSteps P N name :
  range_ok E ->
  events_about name (removedSteps E P N) =
  match P !! name, N !! name with
  | Some _, None => [Removed name]
  | _, _ => []
  end.
Proof.
  intros Hr. unfold removedSteps. rewrite events_about_removed.
  assert (Hnd : NoDup (rangeKeys E P)).
  { rewrite (Hr P). apply NoDup_elements. }
  rewrite filter_eq_NoDup by (by apply NoDup_filter).
  assert (Hin : name ∈ rangeKeys E P ↔ is_Some (P !! name)).
  { rewrite (Hr P), elem_of_elements. apply elem_of_dom. }
  destruct (decide (name ∈ filter _ (rangeKeys E P))) as [Hf|Hf].
  - apply list_elem_of_filter in Hf as [HN Hk].
    apply Hin in Hk as [fp Hfp]. by rewrite Hfp, HN.
  - destruct (P !! name) as [fp|] eqn:Hfp; [|done].
    destruct (N !! name) as [fn|] eqn:Hfn; [done|].
    exfalso. apply Hf. apply list_elem_of_filter. split; [done|].
    apply Hin. by eexists.
Qed.

Lemma successes_names name ds : forall i,
  Forall (fun x => Name x.1 = name) (successes E name i ds).
Proof.
  induction ds as [|d ds IH]; intros i; [by constructor|].
  simpl. destruct (observe E i d); [|by apply IH|by constructor].
  case_decide; [|by apply IH]. constructor; [done | by apply IH].
Qed.


(** The keys of the next map of a pass that was not interrupted are the
    names observed this cycle. *)
Lemma next_is_Some config name :
  interrupted E 0 (Domains config) = false ->
  is_Some (next E config !! name) ↔
  exists i d o, Domains config !! i = Some d ∧ Name d = name
                ∧ observe E i d = Observed o.
Proof.
  intros Hint. rewrite next_lookup, fmap_is_Some, last_is_Some. split.
  - intros Hne.
    destruct (successes E name 0 (Domains config)) as [|[d o] l] eqn:Hs;
      [done|].
    destruct (successes_elem name (Domains config) 0 d o)
      as (j & Hj & Hn & Ho); [rewrite Hs; by left|].
    by exists j, d, o.
  - intros (i & d & o & Hi & Hn & Ho) Hnil.
    pose proof (elem_successes name (Domains config) 0 i d o Hint Hi Hn Ho)
      as Hin.
    rewrite Hnil in Hin. by inversion Hin.
Qed.

(** Each entry of the next map is the fingerprint of an observation of
    this cycle. *)
Lemma next_Some config name fp :
  next E config !! name = Some fp ->
  exists i d o, Domains config !! i = Some d ∧ Name d = name
                ∧ observe E i d = Observed o ∧ fp = HashDomainInfo o.
Proof.
  rewrite next_lookup.
  destruct (last (successes E name 0 (Domains config))) as [[d o]|] eqn:Hl;
    [|done].
  intros [= <-]. apply last_Some_elem_of in Hl.
  destruct (successes_elem name (Domains config) 0 d o Hl)
    as (j & Hj & Hn & Ho).
  by exists j, d, o.
Qed.

(** The pass over the entries is interrupted exactly when the answer of
    some entry names no registrar; the first such entry is where it
    stops. *)
Lemma interrupted_true ds : forall i,
  interrupted E i ds = true ↔
  exists j d, ds !! j = Some d ∧ registrarless E (i + j) d.
Proof.
  induction ds as [|d ds IH]; intros i.
  - split; [done|]. by intros (j & d & Hj & _).
  - simpl. destruct (observe E i d) as [o|line|] eqn:Hobs.
    3: { split; [|done]. intros _. exists 0, d. split; [done|].
         rewrite Nat.add_0_r. by apply observe_Crashed. }
    all: rewrite IH; split;
      [ intros (j & d' & Hj & Hr); exists (S j), d'; split; [done|];
        by replace (i + S j) with (S i + j) by lia
      | intros ([|j] & d' & Hj & Hr); simpl in Hj;
        [ injection Hj as <-; rewrite Nat.add_0_r in Hr;
          apply observe_Crashed in Hr; congruence
        | exists j, d'; split; [done|];
          by replace (S i + j) with (i + S j) by lia ] ].
Qed.

Lemma interrupted_false ds i :
  interrupted E i ds = false ↔
  forall j d, ds !! j = Some d -> ¬ registrarless E (i + j) d.
Proof.
  rewrite <- not_true_iff_false, interrupted_true. split.
  - intros Hn j d Hj Hr. apply Hn. by exists j, d.
  - intros Hn (j & d & Hj & Hr). by apply (Hn j d).
Qed.

(** Among the steps of the entries only a crash crashes. *)
Lemma liveSteps_crashes config P ds : forall i,
  Exists (fun st => crashes config st = true) (liveSteps E P i ds) ↔
  interrupted E i ds = true.
Proof.
  induction ds as [|d ds IH]; intros i; simpl.
  - split; [by inversion 1 | done].
  - unfold liveStep. destruct (observe E i d) as [o|line|].
    + rewrite Exists_app, IH. split; [|by right].
      intros [Hex|Hex]; [|done]. exfalso. unfold classify in Hex.
      destruct (P !! Name d); [case_decide|];
        repeat (apply Exists_cons in Hex as [Hex|Hex]; [done|]);
        by inversion Hex.
    + rewrite Exists_app, IH. split; [|by right].
      intros [Hex|Hex]; [|done].
      apply Exists_cons in Hex as [Hex|Hex]; [done | by inversion Hex].
    + split; [done|]. intros _. by left.
Qed.

(** The steps of a cycle that crash: the crash of an entry whose answer
    names no registrar, or a Removed event, for a key of the previous map
    that was not observed, with a discord sink among the sinks of its name
    or the global ones. *)
Lemma Detect_crashes (config : Config) (P : gmap string string) :
  Exists (fun st => crashes config st = true) (Detect E config P).1 ↔
  interrupted E 0 (Domains config) = true
  ∨ exists name w,
      name ∈ rangeKeys E P
      ∧ next E config !! name = None
      ∧ w ∈ own_sinks config name ++ Webhooks_ config
      ∧ Type_ w = "discord".
Proof.
  unfold Detect. simpl. rewrite Exists_app, liveSteps_crashes.
  destruct (interrupted E 0 (Domains config)).
  { split; intros _; by left. }
  split.
  - intros [?|Hrem]; [done|]. right.
    apply Exists_exists in Hrem as (st & Hst & Hc).
    unfold removedSteps in Hst.
    apply list_elem_of_fmap in Hst as (name & -> & Hname).
    apply list_elem_of_filter in Hname as [Hnext Hin].
    simpl in Hc. apply existsb_is_discord_true in Hc as (w & Hw & Hd).
    by exists name, w.
  - intros [?|(name & w & Hin & Hnext & Hw & Hd)]; [done|]. right.
    apply Exists_exists. exists (Emit (Removed name)). split.
    + unfold removedSteps. apply list_elem_of_fmap. exists name.
      split; [done|]. by apply list_elem_of_filter.
    + simpl. apply existsb_is_discord_true. by exists w.
Qed.

(** A cycle that does not panic was not interrupted. *)
Lemma safe_uninterrupted (config : Config) (P : gmap string string) :
  Forall (fun st => crashes config st = false) (Detect E config P).1 ->
  interrupted E 0 (Domains config) = false.
Proof.
  intros Hsafe. apply not_true_iff_false. intros Hint.
  assert (Exists (fun st => crashes config st = true) (Detect E config P).1)
    as Hex by (apply Detect_crashes; by left).
  apply Exists_exists in Hex as (st & Hst & Hc).
  rewrite Forall_forall in Hsafe. specialize (Hsafe st Hst). congruence.
Qed.

(** Detection looks at the world only through [observe] and [rangeKeys]. *)
Lemma nextFrom_ext (E2 : Env) (ds : list Domain) : forall i acc,
  (forall j d, observe E2 j d = observe E j d) ->
  nextFrom E2 i ds acc = nextFrom E i ds acc.
Proof.
  induction ds as [|d ds IH]; intros i acc Hobs; [done|].
  simpl. rewrite Hobs. destruct (observe E i d); [by apply IH..|done].
Qed.

Lemma next_ext (E2 : Env) (config : Config) :
  (forall j d, observe E2 j d = observe E j d) ->
  next E2 config = next E config.
Proof. intros Hobs. by apply nextFrom_ext. Qed.

(** With pairwise distinct names, a name is observed once or not at
    all. *)
Lemma successes_at_most_one (name : string) (ds : list Domain) :
  NoDup (Name <$> ds) ->
  successes E name 0 ds = []
  ∨ exists d o, successes E name 0 ds = [(d, o)] ∧ Name d = name.
Proof.
  intros Hnd.
  pose proof (successes_NoDup name ds 0 Hnd) as Hlen.
  pose proof (successes_names name ds 0) as Hnames.
  destruct (successes E name 0 ds) as [|[d o] [|x l]];
    [by left | | simpl in Hlen; lia].
  right. exists d, o. split; [done|]. by inversion Hnames.
Qed.

(** The transitions about one name in a cycle that was not interrupted,
    for pairwise distinct names. *)
Lemma Detect_events_about (config : Config) (P : gmap string string)
    (name : string) :
  range_ok E ->
  NoDup (Name <$> Domains config) ->
  interrupted E 0 (Domains config) = false ->
  events_about name (Detect E config P).1
  = match successes E name 0 (Domains config) with
    | (d, o) :: _ =>
        match P !! name with
        | None => [Enabled d o]
        | Some fp =>
            if decide (fp = HashDomainInfo o) then [] else [Changed d o]
        end
    | [] =>
        match P !! name with
        | Some _ => [Removed name]
        | None => []
        end
    end.
Proof.
  intros Hr Hnd Hint. unfold Detect. simpl. rewrite Hint.
  rewrite events_about_app, events_about_live.
  rewrite (events_about_removedSteps _ _ _ Hr), next_lookup.
  destruct (successes_at_most_one name (Domains config) Hnd)
    as [->|(d & o & -> & Hn)]; simpl.
  - by destruct (P !! name).
  - unfold classify. rewrite Hn.
    destruct (P !! name) as [fp|]; [|done]. by case_decide.
Qed.

Lemma no_events_only_reports (steps : list Step) :
  (forall name, events_about name steps = []) ->
  Crash ∉ steps ->
  Forall (fun st => exists line, st = Report line) steps.
Proof.
  induction steps as [|[line|ev|] steps IH]; intros Hnone Hcr.
  - constructor.
  - constructor; [by eexists|]. apply IH.
    + intros name. apply (Hnone name).
    + intros Hin. apply Hcr. by right.
  - specialize (Hnone (subject ev)). simpl in Hnone.
    by rewrite decide_True in Hnone.
  - exfalso. apply Hcr. by left.
Qed.

Lemma reports_are_quiet (config : Config) (steps : list Step) :
  Forall (fun st => exists line, st = Report line) steps ->
  Forall (fun st => crashes config st = false) steps
  ∧ flat_map (step_wire E config) steps = [].
Proof.
  induction 1 as [|st steps [line ->] _ [IH1 IH2]]; [by split|].
  split; [by constructor | done].
Qed.

Lemma uninterrupted_no_Crash (config : Config) (P : gmap string string) :
  interrupted E 0 (Domains config) = false ->
  Crash ∉ (Detect E config P).1.
Proof.
  intros Hint Hin. unfold Detect in Hin. simpl in Hin. rewrite Hint in Hin.
  apply elem_of_app in Hin as [Hin|Hin].
  - assert (interrupted E 0 (Domains config) = true); [|congruence].
    apply (liveSteps_crashes config P). apply Exists_exists.
    by exists Crash.
  - unfold removedSteps in Hin.
    by apply list_elem_of_fmap in Hin as (name & ? & _).
Qed.

End Detection.

(** What a returned map is. *)
Lemma MonitorDomains_returns (E : Env) (config : Config) (p : mapref)
    (s : State) (q : mapref) (s' : State) :
  p < length (heap s) ->
  MonitorDomains E config p s = Done q s' ->
  q = length (heap s)
  ∧ heap s' = heap s ++ [next E config]
  ∧ deref (heap s') q = next E config
  ∧ q < length (heap s')
  ∧ interrupted E 0 (Domains config) = false.
Proof.
  intros Hp Hrun. rewrite (MonitorDomains_cycle E config p s Hp) in Hrun.
  pose proof (cycle_heap E config p s) as Hheap.
  pose proof (not_panicked_safe E config p s) as Hsafe.
  rewrite Hrun in Hheap, Hsafe. simpl in Hheap.
  apply cycle_returns in Hrun as ->.
  split; [done|]. split; [done|]. split; [|split].
  - unfold deref. by rewrite Hheap, list_lookup_middle.
  - rewrite Hheap, length_app. simpl. lia.
  - by apply (safe_uninterrupted E config (deref (heap s) p)), Hsafe.
Qed.

(** A call that does not panic: what it returns, what it leaves in the
    store and what it hands to the HTTP client. *)
Lemma MonitorDomains_run (E : Env) (config : Config) (p : mapref)
    (s : State) :
  p < length (heap s) ->
  panicked (MonitorDomains E config p s) = false ->
  interrupted E 0 (Domains config) = false
  ∧ exists s' reqs lines,
      MonitorDomains E config p s = Done (length (heap s)) s'
      ∧ heap s' = heap s ++ [next E config]
      ∧ sleeps s' = sleeps s
      ∧ posts s' = posts s ++ reqs
      ∧ on_wire <$> reqs
        = flat_map (step_wire E config)
                   (Detect E config (deref (heap s) p)).1
      ∧ stdout s' = stdout s ++ lines.
Proof.
  intros Hp Hnp. rewrite (MonitorDomains_cycle E config p s Hp) in Hnp |- *.
  pose proof (not_panicked_safe E config p s Hnp) as Hsafe.
  split; [by apply (safe_uninterrupted E config (deref (heap s) p))|].
  by apply cycle_run.
Qed.

Lemma flat_map_fmap {A B C} (f : B -> list C) (g : A -> B) (l : list A) :
  flat_map f (g <$> l) = flat_map (fun a => f (g a)) l.
Proof.
  induction l as [|a l IH]; [done|].
  rewrite fmap_cons. simpl. by f_equal.
Qed.

(* ===================================================================== *)
(** ** Theorems *)
(* ===================================================================== *)

(** *** The library models against known values *)

(** FIPS 180-4 test vectors: the empty message, one block, two blocks. *)
Example Sum256_vectors :
  SHA256.hex (SHA256.Sum256 "")
  = "e3b0c44298fc1c149afbf4c8996fb92427ae41e4649b934ca495991b7852b855"
  ∧ SHA256.hex (SHA256.Sum256 "abc")
    = "ba7816bf8f01cfea414140de5dae2223b00361a396177a9cb410ff61f20015ad"
  ∧ SHA256.hex
      (SHA256.Sum256
         "abcdbcdecdefdefgefghfghighijhijkijkljklmklmnlmnomnopnopq")
    = "248d6a61d20638b8e5c026930c3e6039a33ce45964ff2167f6ecedd419db06c1".
Proof. split; [|split]; by vm_compute. Qed.

(** What Go prints for the zero time, for a date, and for an instant with a
    fraction of a second in a zone that has no name. *)
Example Time_String_values :
  Time_String zeroTime = "0001-01-01 00:00:00 +0000 UTC"
  ∧ Time_String Examples.may_first = "2024-05-01 00:00:00 +0000 UTC"
  ∧ Time_String {| sec := 63713519999; nsec := 120000000;
                   loc := Some {| zoneName := ""; zoneOffset := -7200 |} |}
    = "2020-01-01 21:59:59.12 -0200 -0200".
Proof. split; [|split]; by vm_compute. Qed.

(** What is hashed: the struct as [%v] prints it. *)
Example fmt_v_value :
  fmt_v (set_IPAddress
           (Examples.observed ["ns1.example.net"; "ns2.example.net"])
           "192.0.2.7")
  = "{example.com Example Registrar [ns1.example.net ns2.example.net] "
    +:+ "0001-01-01 00:00:00 +0000 UTC 0001-01-01 00:00:00 +0000 UTC "
    +:+ "0001-01-01 00:00:00 +0000 UTC 192.0.2.7}".
Proof. by vm_compute. Qed.

(** *** The digest has a fixed size *)

Lemma round_length st kw : length st = 8 -> length (SHA256.round st kw) = 8.
Proof.
  do 9 (destruct st as [|? st]; try done).
Qed.

Lemma rounds_length l : forall st,
  length st = 8 -> length (fold_left SHA256.round l st) = 8.
Proof.
  induction l as [|kw l IH]; intros st Hst; [done|].
  simpl. apply IH. by apply round_length.
Qed.

Lemma block_length h ws : length h = 8 -> length (SHA256.block h ws) = 8.
Proof.
  intros Hh. unfold SHA256.block.
  rewrite length_zip_with, rounds_length by done. lia.
Qed.

Lemma blocks_length fuel : forall h ws,
  length h = 8 -> length (SHA256.blocks fuel h ws) = 8.
Proof.
  induction fuel as [|fuel IH]; intros h ws Hh; [done|].
  simpl. destruct ws; [done|]. apply IH. by apply block_length.
Qed.

Lemma be_bytes_length n x : length (SHA256.be_bytes n x) = n.
Proof. induction n as [|n IH]; simpl; [done | by rewrite IH]. Qed.

Lemma words_bytes_length (ws : list Z) :
  length (flat_map (SHA256.be_bytes 4) ws) = 4 * length ws.
Proof.
  induction ws as [|w ws IH]; [done|].
  change (flat_map (SHA256.be_bytes 4) (w :: ws))
    with (SHA256.be_bytes 4 w ++ flat_map (SHA256.be_bytes 4) ws).
  rewrite length_app, be_bytes_length, IH. simpl. lia.
Qed.

Lemma Sum256_length data : length (SHA256.Sum256 data) = 32.
Proof.
  unfold SHA256.Sum256. by rewrite words_bytes_length, blocks_length.
Qed.

Lemma string_of_chars_length l : String.length (string_of_chars l) = length l.
Proof. induction l as [|c l IH]; simpl; [done | by rewrite IH]. Qed.

Lemma hex_length bs : String.length (SHA256.hex bs) = 2 * length bs.
Proof.
  unfold SHA256.hex. rewrite string_of_chars_length.
  induction bs as [|b bs IH]; simpl; [done | rewrite IH; lia].
Qed.

(** A fingerprint is 64 hexadecimal digits, whatever was observed. *)
Lemma HashDomainInfo_length info : String.length (HashDomainInfo info) = 64.
Proof.
  unfold HashDomainInfo. by rewrite hex_length, Sum256_length.
Qed.

(** *** Dates *)

Lemma parseDate_from_first (E : Env) (dateStr : string) (fs : list string) :
  (exists i format t,
      fs !! i = Some format
      ∧ time_Parse E format dateStr = Ok t
      ∧ (forall j earlier, j < i -> fs !! j = Some earlier ->
           is_ok (time_Parse E earlier dateStr) = false)
      ∧ parseDate_from E fs dateStr = t)
  ∨ ((forall format, format ∈ fs ->
        is_ok (time_Parse E format dateStr) = false)
     ∧ parseDate_from E fs dateStr = zeroTime).
Proof.
  induction fs as [|f fs IH].
  - right. split; [|done]. intros format H. by inversion H.
  - simpl. destruct (time_Parse E f dateStr) as [t|err] eqn:Hf.
    + left. exists 0, f, t. repeat split; try done. intros j ? Hj. lia.
    + destruct IH as [(i & format & t & Hi & Ht & Hbefore & Hres)|[Hall Hres]].
      * left. exists (S i), format, t. repeat split; try done.
        intros [|j] earlier Hj Hearlier.
        -- injection Hearlier as <-. by rewrite Hf.
        -- apply (Hbefore j); [lia | done].
      * right. split; [|done]. intros format Hin.
        apply elem_of_cons in Hin as [->|Hin]; [by rewrite Hf | by apply Hall].
Qed.

(** A registrar record keeps its name, empty or not. *)
Lemma ParseWHOIS_Some (E : Env) (domain response : string)
    (result : WhoisInfo) (registrar : Contact) (s : State) :
  whoisparser_Parse E response = Ok result ->
  Registrar result = Some registrar ->
  ParseWHOIS E domain response s
  = Done (Ok {| Domain_ := domain;
                RegistrarTag := Contact_Name registrar;
                NameServers := Domain_NameServers result;
                CreationDate := normalDate E (Domain_CreatedDate result);
                ExpiryDate := normalDate E (Domain_ExpirationDate result);
                UpdatedDate := normalDate E (Domain_UpdatedDate result);
                IPAddress := "" |}) s.
Proof.
  intros Hparse Hreg. unfold ParseWHOIS. rewrite Hparse, Hreg.
  assert ((if decide (Contact_Name registrar ≠ "")
           then Contact_Name registrar else "") = Contact_Name registrar)
    as ->; [|done].
  case_decide as Hn; [done|].
  destruct (decide (Contact_Name registrar = "")) as [->|Hne];
    [done | by destruct Hn].
Qed.

Lemma ParseWHOIS_None (E : Env) (domain response : string)
    (result : WhoisInfo) (s : State) :
  whoisparser_Parse E response = Ok result ->
  Registrar result = None ->
  ParseWHOIS E domain response s = Panicked nil_dereference s.
Proof. intros Hparse Hreg. unfold ParseWHOIS. by rewrite Hparse, Hreg. Qed.

(** C8.  [parseDate] tries the six accepted layouts in their fixed order.
    Either some layout parses the string, every layout before it fails, and
    the result is what that first layout parsed; or every layout fails and
    the result is the zero time.  There is no third case: [parseDate]
    returns a time for every string, never an error, and every observation
    has a digest of 64 hexadecimal digits.  So no date makes [ParseWHOIS]
    fail: for a parsed answer with a registrar record it returns the
    observation with the three normalised dates, whatever the strings are.
    But a parsed answer without a registrar record makes it panic, whatever
    its dates: not every input normalises. *)
Theorem parseDate_first_match (E : Env) (dateStr : string) :
  formats = [ "2006-01-02T15:04:05Z07:00"; "2006-01-02T15:04:05Z";
              "2006-01-02 15:04:05"; "2006-01-02"; "02-Jan-2006";
              "02-Jan-2006 15:04:05 MST" ]
  ∧ ((exists i format t,
         formats !! i = Some format
         ∧ time_Parse E format dateStr = Ok t
         ∧ (forall j earlier, j < i -> formats !! j = Some earlier ->
              is_ok (time_Parse E earlier dateStr) = false)
         ∧ parseDate E dateStr = t)
     ∨ ((forall format, format ∈ formats ->
           is_ok (time_Parse E format dateStr) = false)
        ∧ parseDate E dateStr = zeroTime))
  ∧ (forall info, String.length (HashDomainInfo info) = 64)
  ∧ (forall domain response result s,
       whoisparser_Parse E response = Ok result ->
       match Registrar result with
       | Some registrar =>
           exists info,
             ParseWHOIS E domain response s = Done (Ok info) s
             ∧ CreationDate info = normalDate E (Domain_CreatedDate result)
             ∧ ExpiryDate info
               = normalDate E (Domain_ExpirationDate result)
             ∧ UpdatedDate info = normalDate E (Domain_UpdatedDate result)
       | None =>
           ParseWHOIS E domain response s = Panicked nil_dereference s
       end).
Proof.
  split; [done|]. split; [apply parseDate_from_first|].
  split; [apply HashDomainInfo_length|].
  intros domain response result s Hparse.
  destruct (Registrar result) as [registrar|] eqn:Hreg.
  - eexists. by rewrite (ParseWHOIS_Some E _ _ _ _ s Hparse Hreg).
  - by apply (ParseWHOIS_None E _ _ result).
Qed.

(** The registry publishes no registrar: the answer parses, and
    [ParseWHOIS] panics on it; so does the cycle that meets it, although
    nothing was monitored before and the one sink is a teams sink. *)
Example answer_without_registrar :
  whoisparser_Parse Examples.unregistered "answer A" = Ok Examples.anonymous
  ∧ ParseWHOIS Examples.unregistered "example.com" "answer A" Monitor.initial
    = Panicked nil_dereference Monitor.initial
  ∧ MonitorDomains Examples.unregistered Examples.once 0
      (Examples.after_cycle ∅)
    = Panicked nil_dereference
        {| heap := [∅; ∅]; stdout := []; posts := []; sleeps := [] |}.
Proof. split; [done|]. split; [done|]. by vm_compute. Qed.

(** The same date in two layouts normalises to one time; an unreadable
    string to the zero time. *)
Example parseDate_examples :
  parseDate Examples.dated "2024-05-01" = Examples.may_first
  ∧ parseDate Examples.dated "01-May-2024" = Examples.may_first
  ∧ parseDate Examples.dated "sometime in May" = zeroTime.
Proof. by vm_compute. Qed.

(** *** Configuration *)

(** C9. [LoadConfig] fails only when the file cannot be opened or decoded,
    with that error.  When it succeeds the configuration is the decoded one
    with the interval raised to 5 if it was lower: the interval returned is
    the larger of 5 and the configured one, hence at least 5, and nothing
    else is changed. *)
Theorem LoadConfig_interval_floor (E : Env) (filePath : string) :
  match LoadConfig E filePath with
  | Ok config =>
      exists file raw,
        os_Open E filePath = Ok file
        ∧ yaml_Decode E file = Ok raw
        ∧ Interval config = Z.max 5 (Interval raw)
        ∧ (5 <= Interval config)%Z
        ∧ ((5 <= Interval raw)%Z -> config = raw)
        ∧ Domains config = Domains raw
        ∧ Webhooks_ config = Webhooks_ raw
  | Err err =>
      os_Open E filePath = Err err
      ∨ exists file, os_Open E filePath = Ok file
                     ∧ yaml_Decode E file = Err err
  end.
Proof.
  unfold LoadConfig.
  destruct (os_Open E filePath) as [file|err]; [|by left].
  destruct (yaml_Decode E file) as [raw|err] eqn:Hraw; [|right; by eexists].
  exists file, raw. destruct (Z.ltb_spec (Interval raw) 5); simpl.
  - repeat split; try done; lia.
  - repeat split; try done; lia.
Qed.

(** An interval of 1 is raised to 5 and no error is returned. *)
Example LoadConfig_interval_1 :
  let E := {| os_Open := fun _ => Ok "interval: 1";
              yaml_Decode := fun _ =>
                Ok {| Interval := 1; Domains := []; Webhooks_ := [] |};
              whois_Whois := whois_Whois Examples.silent;
              whoisparser_Parse := whoisparser_Parse Examples.silent;
              net_LookupIP := net_LookupIP Examples.silent;
              time_Parse := time_Parse Examples.silent;
              http_NewRequest := http_NewRequest Examples.silent;
              client_Do := client_Do Examples.silent;
              rangeKeys := rangeKeys Examples.silent |} in
  LoadConfig E "config.yaml"
  = Ok {| Interval := 5; Domains := []; Webhooks_ := [] |}.
Proof. done. Qed.

(** *** Fingerprints *)

(** What [Time.String] shows of a time is its instant, its offset and the
    name of its zone. *)
Lemma Time_String_same_clock (t u : Time) :
  same_clock t u -> Time_String t = Time_String u.
Proof.
  intros (Hsec & Hnsec & Hoff & Hname). unfold Time_String.
  by rewrite Hsec, Hnsec, Hoff, Hname.
Qed.

(** C1, as the code has it.  Two WHOIS answers that both name a registrar,
    the same one, that list the same name servers in the same order, and
    whose three dates normalise to times that show the same instant on the
    same clock, whatever their spelling and whatever the location records
    behind them, yield equal digests once the same address is filled in.
    [ParseWHOIS] keeps the name servers in the order of the answer, and the
    digest is taken of the dates as [Time.String] prints them. *)
Theorem fingerprint_stability (E : Env) (domain respA respB ip : string)
    (a b : WhoisInfo) (ra rb : Contact) (s : State) :
  whoisparser_Parse E respA = Ok a ->
  whoisparser_Parse E respB = Ok b ->
  Registrar a = Some ra ->
  Registrar b = Some rb ->
  Contact_Name ra = Contact_Name rb ->
  Domain_NameServers a = Domain_NameServers b ->
  same_clock (normalDate E (Domain_CreatedDate a))
             (normalDate E (Domain_CreatedDate b)) ->
  same_clock (normalDate E (Domain_ExpirationDate a))
             (normalDate E (Domain_ExpirationDate b)) ->
  same_clock (normalDate E (Domain_UpdatedDate a))
             (normalDate E (Domain_UpdatedDate b)) ->
  exists ia ib,
    ParseWHOIS E domain respA s = Done (Ok ia) s
    ∧ ParseWHOIS E domain respB s = Done (Ok ib) s
    ∧ NameServers ia = Domain_NameServers a
    ∧ NameServers ib = Domain_NameServers b
    ∧ CreationDate ia = normalDate E (Domain_CreatedDate a)
    ∧ CreationDate ib = normalDate E (Domain_CreatedDate b)
    ∧ HashDomainInfo (set_IPAddress ia ip)
      = HashDomainInfo (set_IPAddress ib ip).
Proof.
  intros Ha Hb Hra Hrb Hreg Hns Hc He Hu.
  rewrite (ParseWHOIS_Some E domain respA a ra s Ha Hra).
  rewrite (ParseWHOIS_Some E domain respB b rb s Hb Hrb).
  do 2 eexists. do 6 (split; [reflexivity|]).
  unfold HashDomainInfo, fmt_v, set_IPAddress. simpl.
  by rewrite Hreg, Hns, (Time_String_same_clock _ _ Hc),
       (Time_String_same_clock _ _ He), (Time_String_same_clock _ _ Hu).
Qed.

(** Ten o'clock UTC spelled with a Z and with a zero offset: two time
    records, one clock, equal digests. *)
Lemma fingerprint_stability_witness :
  exists ia ib,
    ParseWHOIS Examples.dated "example.com" "2024-05-01T10:00:00Z"
               Monitor.initial = Done (Ok ia) Monitor.initial
    ∧ ParseWHOIS Examples.dated "example.com" "2024-05-01T10:00:00+00:00"
                 Monitor.initial = Done (Ok ib) Monitor.initial
    ∧ NameServers ia = ["ns1.example.net"]
    ∧ NameServers ib = ["ns1.example.net"]
    ∧ CreationDate ia = Examples.ten_utc
    ∧ CreationDate ib = Examples.ten_local
    ∧ HashDomainInfo (set_IPAddress ia "192.0.2.7")
      = HashDomainInfo (set_IPAddress ib "192.0.2.7").
Proof.
  apply (fingerprint_stability Examples.dated "example.com"
           "2024-05-01T10:00:00Z" "2024-05-01T10:00:00+00:00" "192.0.2.7"
           _ _ _ _ Monitor.initial eq_refl eq_refl eq_refl eq_refl);
    try reflexivity; by vm_compute.
Defined.

(** C1 as written fails, twice.  The name servers are not sorted: two
    answers that differ only in the order of the two name servers give two
    digests.  And a date counts as it is printed, in the zone it was
    written in: the same instant written with a Z and with an offset of two
    hours gives two digests. *)
Lemma order_and_zone_change_digest :
  (ParseWHOIS Examples.online "example.com" "answer A" Monitor.initial
   = Done (Ok (Examples.observed ["ns1.example.net"; "ns2.example.net"]))
          Monitor.initial
   ∧ ParseWHOIS Examples.online "example.com" "answer B" Monitor.initial
     = Done (Ok (Examples.observed ["ns2.example.net"; "ns1.example.net"]))
            Monitor.initial
   ∧ ["ns1.example.net"; "ns2.example.net"]
       ≡ₚ ["ns2.example.net"; "ns1.example.net"]
   ∧ HashDomainInfo
       (Examples.observed ["ns1.example.net"; "ns2.example.net"])
     ≠ HashDomainInfo
         (Examples.observed ["ns2.example.net"; "ns1.example.net"]))
  ∧ (exists ia ib,
       ParseWHOIS Examples.dated "example.com" "2024-05-01T10:00:00Z"
                  Monitor.initial = Done (Ok ia) Monitor.initial
       ∧ ParseWHOIS Examples.dated "example.com" "2024-05-01T12:00:00+02:00"
                    Monitor.initial = Done (Ok ib) Monitor.initial
       ∧ sec (CreationDate ia) = sec (CreationDate ib)
       ∧ nsec (CreationDate ia) = nsec (CreationDate ib)
       ∧ Time_String (CreationDate ia) = "2024-05-01 10:00:00 +0000 UTC"
       ∧ Time_String (CreationDate ib) = "2024-05-01 12:00:00 +0200 +0200"
       ∧ RegistrarTag ia = RegistrarTag ib
       ∧ NameServers ia = NameServers ib
       ∧ ExpiryDate ia = ExpiryDate ib
       ∧ UpdatedDate ia = UpdatedDate ib
       ∧ HashDomainInfo ia ≠ HashDomainInfo ib).
Proof.
  split.
  - split; [reflexivity|]. split; [reflexivity|]. split; [apply perm_swap|].
    vm_compute. discriminate.
  - do 2 eexists. do 2 (split; [reflexivity|]).
    do 2 (split; [reflexivity|]). do 2 (split; [by vm_compute|]).
    do 4 (split; [reflexivity|]). vm_compute. discriminate.
Qed.

(** *** Notifications without an observation *)

(** C3.  The discord branch of [SendWebhook] reads the fields of
    [domainInfo] to build the description.  For a Removed event the caller
    passes nil, so the call panics before any payload exists: no
    summary-only payload is produced and no request is sent. *)
Theorem SendWebhook_discord_nil_panics (E : Env) (webhook : Webhook)
    (message : string) (s : State) :
  Type_ webhook = "discord" ->
  SendWebhook E webhook message None s = Panicked nil_dereference s.
Proof.
  intros Hd. unfold SendWebhook, build_payload. rewrite bind_run, Hd.
  done.
Qed.

Lemma SendWebhook_discord_nil_panics_witness :
  SendWebhook Examples.silent Examples.discord_hook
              (finished_message "example.com") None Monitor.initial
  = Panicked nil_dereference Monitor.initial.
Proof.
  apply (SendWebhook_discord_nil_panics Examples.silent Examples.discord_hook).
  reflexivity.
Defined.

(** C4.  [example.com] is in the previous map and no longer configured; the
    global sinks are a discord sink followed by a teams sink.  The cycle
    panics at the discord sink: nothing is posted, so the teams sink never
    gets its Removed notification.  With the teams sink alone the cycle
    completes and posts exactly that notification. *)
Theorem removed_with_discord_sink_crashes :
  MonitorDomains Examples.silent Examples.two_sinks 0
    (Examples.after_cycle {[ "example.com" := "fingerprint" ]})
  = Panicked nil_dereference
      {| heap := [ {[ "example.com" := "fingerprint" ]}; ∅ ];
         stdout := []; posts := []; sleeps := [] |}
  ∧ MonitorDomains Examples.silent Examples.teams_only 0
      (Examples.after_cycle {[ "example.com" := "fingerprint" ]})
    = Done 1
        {| heap := [ {[ "example.com" := "fingerprint" ]}; ∅ ];
           stdout := [];
           posts := [ Examples.teams_post
                        (finished_message "example.com") ];
           sleeps := [] |}.
Proof. split; by vm_compute. Qed.

(** C6.  [d1.example] is configured with a discord sink of its own,
    [e.example] has left the configuration, both are in the previous map,
    and [range] visits [d1.example] first.  When the WHOIS fetch of
    [d1.example] succeeds, the cycle completes and the global teams sink is
    told that [e.example] is finished.  When that one fetch fails, the
    Removed event of [d1.example] reaches its discord sink, the cycle
    panics, and the notification for [e.example] is never posted. *)
Theorem fetch_failure_reaches_other_domains :
  range_ok Examples.online_rev
  ∧ range_ok Examples.first_fetch_fails
  ∧ rangeKeys Examples.online_rev Examples.both_known
    = ["d1.example"; "e.example"]
  ∧ panicked (MonitorDomains Examples.online_rev Examples.mixed 0
                (Examples.after_cycle Examples.both_known)) = false
  ∧ last (posts (final (MonitorDomains Examples.online_rev Examples.mixed 0
                          (Examples.after_cycle Examples.both_known))))
    = Some (Examples.teams_post (finished_message "e.example"))
  ∧ MonitorDomains Examples.first_fetch_fails Examples.mixed 0
      (Examples.after_cycle Examples.both_known)
    = Panicked nil_dereference
        {| heap := [ Examples.both_known; ∅ ];
           stdout := [ "Error fetching WHOIS information for d1.example: "
                         +:+ "whois: connect to whois server failed"
                         +:+ nl ];
           posts := []; sleeps := [] |}.
Proof.
  split; [by apply range_ok_reverse|]. split; [by apply range_ok_reverse|].
  split; [by vm_compute|]. split; [by vm_compute|].
  split; by vm_compute.
Qed.

(** *** The three messages *)

Lemma append_inj (prefix a b : string) :
  prefix +:+ a = prefix +:+ b -> a = b.
Proof.
  induction prefix as [|c prefix IH]; simpl; [done|].
  intros [= H]. by apply IH.
Qed.

(** A message names its kind and its domain. *)
Lemma message_subject (ev : TransitionEvent) (name : string) :
  message_of ev = enabled_message name
  ∨ message_of ev = changed_message name
  ∨ message_of ev = finished_message name
  ↔ subject ev = name.
Proof.
  split.
  - unfold enabled_message, changed_message, finished_message.
    intros [H|[H|H]]; destruct ev; simpl in *;
      unfold enabled_message, changed_message, finished_message in H;
      try (by apply append_inj in H); simpl in H; discriminate H.
  - intros <-. destruct ev; simpl; tauto.
Qed.

Lemma message_of_about (ev : TransitionEvent) (name target : string) :
  about name (target, Some (message_of ev)) = true ↔ subject ev = name.
Proof.
  unfold about. rewrite bool_decide_eq_true, <- message_subject. simpl.
  split; (intros [H|[H|H]]; [left|right; left|right; right]); congruence.
Qed.

Lemma filter_about_step (E : Env) (config : Config) (name : string)
    (st : Step) :
  filter (fun seen => about name seen = true) (step_wire E config st)
  = match st with
    | Emit ev =>
        if decide (subject ev = name) then step_wire E config st else []
    | _ => []
    end.
Proof.
  destruct st as [line|ev|]; [done| |done]. simpl.
  induction (filter (fun w => deliverable E w = true)
                    (event_sinks config ev)) as [|w l IH].
  - by case_decide.
  - rewrite fmap_cons, filter_cons, IH. unfold expected at 1.
    pose proof (message_of_about ev name (URL w)) as Hab.
    destruct (decide (subject ev = name)) as [Hn|Hn].
    + by rewrite decide_True by (by apply Hab).
    + rewrite decide_False; [done|]. by rewrite Hab.
Qed.

(** The requests about a name are those of the events about it. *)
Lemma wire_about (E : Env) (config : Config) (name : string)
    (steps : list Step) :
  filter (fun seen => about name seen = true)
         (flat_map (step_wire E config) steps)
  = flat_map (step_wire E config) (Emit <$> events_about name steps).
Proof.
  induction steps as [|st steps IH]; [done|].
  change (flat_map (step_wire E config) (st :: steps))
    with (step_wire E config st ++ flat_map (step_wire E config) steps).
  rewrite filter_app, IH, filter_about_step.
  destruct st as [line|ev|]; simpl; [done| |done].
  case_decide; [|done]. by rewrite fmap_cons.
Qed.

(** *** The next state *)

Lemma no_discord_safe (E : Env) (config : Config) (P : gmap string string) :
  interrupted E 0 (Domains config) = false ->
  no_discord config ->
  Forall (fun st => crashes config st = false) (Detect E config P).1.
Proof.
  intros Hint Hnd. apply Forall_forall. intros st Hst.
  destruct (crashes config st) eqn:Hc; [|done]. exfalso.
  assert (Exists (fun st => crashes config st = true) (Detect E config P).1)
    as Hex by (apply Exists_exists; by exists st).
  apply Detect_crashes in Hex as [?|(name & w & _ & _ & Hw & Hd)];
    [congruence|].
  by apply (Hnd w (own_sinks_sinks config name w Hw)).
Qed.

(** C7.  However the call ends, the store then holds the maps it held
    before, unchanged, the previous map among them, and one new map.  When
    the call returns, it returns that new map, and the map is the next
    state: its keys are the names of the configured entries whose fetch,
    parse and resolution all succeeded this cycle, each mapped to the
    fingerprint of such an observation; a name whose entries all failed is
    absent.  The call does return when every answer it parses names a
    registrar and no sink is of the discord kind. *)
Theorem next_state_is_fresh (E : Env) (config : Config) (p : mapref)
    (s : State) :
  p < length (heap s) ->
  let r := MonitorDomains E config p s in
  (exists fresh, heap (final r) = heap s ++ [fresh])
  ∧ deref (heap (final r)) p = deref (heap s) p
  ∧ (forall q s', r = Done q s' ->
       q = length (heap s)
       ∧ heap s' = heap s ++ [deref (heap s') q]
       ∧ (forall name,
            is_Some (deref (heap s') q !! name) ↔
            exists i d o, Domains config !! i = Some d ∧ Name d = name
                          ∧ observe E i d = Observed o)
       ∧ (forall name fp,
            deref (heap s') q !! name = Some fp ->
            exists i d o, Domains config !! i = Some d ∧ Name d = name
                          ∧ observe E i d = Observed o
                          ∧ fp = HashDomainInfo o))
  ∧ ((forall i d, Domains config !! i = Some d -> ¬ registrarless E i d) ->
     no_discord config ->
     exists s', r = Done (length (heap s)) s').
Proof.
  intros Hp r. unfold r.
  pose proof (cycle_heap E config p s) as Hheap.
  rewrite <- (MonitorDomains_cycle E config p s Hp) in Hheap.
  split; [by eexists|]. split.
  { rewrite Hheap. unfold deref. by rewrite lookup_app_l. }
  split.
  - intros q s' Hr.
    destruct (MonitorDomains_returns E config p s q s' Hp Hr)
      as (-> & Hh & Hq & _ & Hint).
    split; [done|]. rewrite Hq. split; [done|].
    split; [intros name; by apply next_is_Some | apply next_Some].
  - intros Hreg Hnd. rewrite (MonitorDomains_cycle E config p s Hp).
    assert (Hint : interrupted E 0 (Domains config) = false).
    { apply interrupted_false. intros j d Hj. by apply Hreg. }
    destruct (cycle_run E config p s
                (no_discord_safe E config _ Hint Hnd))
      as (s' & _ & _ & Hrun & _).
    by exists s'.
Qed.

Lemma next_state_is_fresh_witness :
  let r := MonitorDomains Examples.online Examples.once 0
             (Examples.after_cycle ∅) in
  (exists fresh, heap (final r) = [∅] ++ [fresh])
  ∧ deref (heap (final r)) 0 = ∅
  ∧ (forall q s', r = Done q s' ->
       q = 1
       ∧ heap s' = [∅] ++ [deref (heap s') q]
       ∧ (forall name,
            is_Some (deref (heap s') q !! name) ↔
            exists i d o, Domains Examples.once !! i = Some d
                          ∧ Name d = name
                          ∧ observe Examples.online i d = Observed o)
       ∧ (forall name fp,
            deref (heap s') q !! name = Some fp ->
            exists i d o, Domains Examples.once !! i = Some d
                          ∧ Name d = name
                          ∧ observe Examples.online i d = Observed o
                          ∧ fp = HashDomainInfo o))
  ∧ ((forall i d, Domains Examples.once !! i = Some d ->
                  ¬ registrarless Examples.online i d) ->
     no_discord Examples.once ->
     exists s', r = Done 1 s').
Proof.
  apply (next_state_is_fresh Examples.online Examples.once 0
           (Examples.after_cycle ∅)).
  simpl. lia.
Defined.

(** The run behind the witness: the call returns the new map, which holds
    the fingerprint of the one domain; the map it was given is as it
    was. *)
Example next_state_run :
  MonitorDomains Examples.online Examples.once 0 (Examples.after_cycle ∅)
  = Done 1
      {| heap :=
           [ ∅;
             {[ "example.com" :=
                  HashDomainInfo
                    (set_IPAddress
                       (Examples.observed
                          ["ns1.example.net"; "ns2.example.net"])
                       "192.0.2.7") ]} ];
         stdout := [];
         posts := [ Examples.teams_post (enabled_message "example.com") ];
         sleeps := [] |}.
Proof. by vm_compute. Qed.

(** *** Classification *)

(** What the cycle observed of a name, when it was not interrupted. *)
Lemma successes_spec (E : Env) (config : Config) (name : string)
    (d : Domain) (o : DomainInfo) :
  interrupted E 0 (Domains config) = false ->
  (d, o) ∈ successes E name 0 (Domains config) ↔
  exists i, Domains config !! i = Some d ∧ Name d = name
            ∧ observe E i d = Observed o.
Proof.
  intros Hint. split.
  - apply successes_elem.
  - intros (i & Hi & Hn & Ho).
    by apply (elem_successes E name (Domains config) 0 i).
Qed.






(** The run behind the witness: two Enabled notifications for the one
    name, and the fingerprint of the second answer in the next map. *)
Example duplicates_run :
  successes Examples.changing "example.com" 0 (Domains Examples.twice)
  = [ (Examples.example_com,
       set_IPAddress
         (Examples.observed ["ns1.example.net"; "ns2.example.net"])
         "192.0.2.7");
      (Examples.example_com,
       set_IPAddress
         (Examples.observed ["ns2.example.net"; "ns1.example.net"])
         "192.0.2.7") ]
  ∧ next Examples.changing Examples.twice !! "example.com"
    = Some (HashDomainInfo
              (set_IPAddress
                 (Examples.observed ["ns2.example.net"; "ns1.example.net"])
                 "192.0.2.7")).
Proof. split; by vm_compute. Qed.

(** C2, as the code has it.  A call of [MonitorDomains] that does not panic
    detects the transitions against the previous map and dispatches them in
    order; the requests it hands to the HTTP client are those of the
    detected events.  When the configured names are pairwise distinct, the
    transitions about any one name are: for a name observed this cycle,
    Enabled if the previous map has no entry for it, nothing if the entry
    equals the fingerprint, Changed otherwise; for a name not observed,
    Removed if the previous map has an entry, nothing otherwise.  The
    requests about the name are those of that one transition.  So every
    name of the observed set or of the previous map is classified once, and
    no other name is. *)
Theorem transition_completeness (E : Env) (config : Config) (p : mapref)
    (s : State) :
  p < length (heap s) ->
  range_ok E ->
  NoDup (Name <$> Domains config) ->
  panicked (MonitorDomains E config p s) = false ->
  let P := deref (heap s) p in
  exists s' reqs,
    MonitorDomains E config p s = Done (length (heap s)) s'
    ∧ posts s' = posts s ++ reqs
    ∧ on_wire <$> reqs
      = flat_map (step_wire E config) (Detect E config P).1
    ∧ (forall name d o,
         (d, o) ∈ successes E name 0 (Domains config) ↔
         exists i, Domains config !! i = Some d ∧ Name d = name
                   ∧ observe E i d = Observed o)
    ∧ (forall name,
         deref (heap s') (length (heap s)) !! name
         = (fun '(_, o) => HashDomainInfo o)
             <$> head (successes E name 0 (Domains config)))
    ∧ (forall name,
         events_about name (Detect E config P).1
         = match successes E name 0 (Domains config) with
           | (d, o) :: _ =>
               match P !! name with
               | None => [Enabled d o]
               | Some fp =>
                   if decide (fp = HashDomainInfo o) then []
                   else [Changed d o]
               end
           | [] =>
               match P !! name with
               | Some _ => [Removed name]
               | None => []
               end
           end)
    ∧ (forall name,
         filter (fun x => about name x = true) (on_wire <$> reqs)
         = flat_map (step_wire E config)
                    (Emit <$> events_about name (Detect E config P).1)).
Proof.
  intros Hp Hr Hnd Hnp P. subst P.
  destruct (MonitorDomains_run E config p s Hp Hnp)
    as (Hint & s' & reqs & lines & Hrun & Hh & _ & Hposts & Hw & _).
  exists s', reqs. do 3 (split; [done|]).
  split; [intros name d o; by apply successes_spec|].
  split; [|split].
  - intros name. unfold deref. rewrite Hh, list_lookup_middle by done.
    simpl. rewrite next_lookup.
    by destruct (successes_at_most_one E name (Domains config) Hnd)
      as [->|(d & o & -> & _)].
  - intros name. by apply Detect_events_about.
  - intros name. by rewrite Hw, wire_about.
Qed.

Lemma transition_completeness_witness :
  let P : gmap string string := Examples.both_known in
  exists s' reqs,
    MonitorDomains Examples.online Examples.mixed 0
      (Examples.after_cycle Examples.both_known)
    = Done 1 s'
    ∧ posts s' = [] ++ reqs
    ∧ on_wire <$> reqs
      = flat_map (step_wire Examples.online Examples.mixed)
                 (Detect Examples.online Examples.mixed P).1
    ∧ (forall name d o,
         (d, o) ∈ successes Examples.online name 0 (Domains Examples.mixed) ↔
         exists i, Domains Examples.mixed !! i = Some d ∧ Name d = name
                   ∧ observe Examples.online i d = Observed o)
    ∧ (forall name,
         deref (heap s') 1 !! name
         = (fun '(_, o) => HashDomainInfo o)
             <$> head (successes Examples.online name 0
                         (Domains Examples.mixed)))
    ∧ (forall name,
         events_about name (Detect Examples.online Examples.mixed P).1
         = match successes Examples.online name 0 (Domains Examples.mixed) with
           | (d, o) :: _ =>
               match P !! name with
               | None => [Enabled d o]
               | Some fp =>
                   if decide (fp = HashDomainInfo o) then []
                   else [Changed d o]
               end
           | [] =>
               match P !! name with
               | Some _ => [Removed name]
               | None => []
               end
           end)
    ∧ (forall name,
         filter (fun x => about name x = true) (on_wire <$> reqs)
         = flat_map (step_wire Examples.online Examples.mixed)
                    (Emit <$> events_about name
                                (Detect Examples.online Examples.mixed P).1)).
Proof.
  apply (transition_completeness Examples.online Examples.mixed 0
           (Examples.after_cycle Examples.both_known)).
  - simpl. lia.
  - by apply range_ok_elements.
  - simpl. repeat constructor. by inversion 1.
  - by vm_compute.
Defined.

(** C2 as written fails when a name is configured twice: the one domain
    gets two Enabled events in one cycle, and the sink two notifications. *)
Lemma duplicate_name_emitted_twice :
  length (events_about "example.com"
            (Detect Examples.online Examples.twice ∅).1) = 2
  ∧ posts (final (MonitorDomains Examples.online Examples.twice 0
                    (Examples.after_cycle ∅)))
    = [ Examples.teams_post (enabled_message "example.com");
        Examples.teams_post (enabled_message "example.com") ].
Proof. split; by vm_compute. Qed.

(** *** The polling loop *)

Lemma main_loop_returned (W : nat -> Env) (fuel : nat) :
  forall c p s s',
    main_loop W fuel c p s = Done Returned s' ->
    exists n err,
      c <= n < c + fuel
      ∧ LoadConfig (W n) "config.yaml" = Err err
      ∧ (forall k, c <= k < n ->
           is_ok (LoadConfig (W k) "config.yaml") = true)
      ∧ last (stdout s') = Some ("Error loading config: " +:+ err +:+ nl).
Proof.
  induction fuel as [|fuel IH]; intros c p s s' Hrun; [done|].
  simpl in Hrun.
  destruct (LoadConfig (W c) "config.yaml") as [config|err] eqn:Hload.
  - rewrite bind_run in Hrun.
    destruct (MonitorDomains (W c) config p s) as [q s1|m s1]; [|done].
    rewrite bind_run in Hrun. simpl in Hrun.
    destruct (IH _ _ _ _ Hrun) as (n & err & Hn & Herr & Hbefore & Hout).
    exists n, err. split; [lia|]. split; [done|]. split; [|done].
    intros k Hk. destruct (decide (k = c)) as [->|Hne].
    + by rewrite Hload.
    + apply Hbefore. lia.
  - rewrite bind_run in Hrun. simpl in Hrun. injection Hrun as <-.
    exists c, err. split; [lia|]. split; [done|]. split; [intros k; lia|].
    simpl. apply last_snoc.
Qed.

Lemma main_loop_not_running (W : nat -> Env) (fuel : nat) :
  forall c p s n err,
    c <= n < c + fuel ->
    LoadConfig (W n) "config.yaml" = Err err ->
    forall s', main_loop W fuel c p s ≠ Done Running s'.
Proof.
  induction fuel as [|fuel IH]; intros c p s n err Hn Herr s'; [lia|].
  simpl.
  destruct (LoadConfig (W c) "config.yaml") as [config|err'] eqn:Hload.
  - rewrite bind_run.
    destruct (MonitorDomains (W c) config p s) as [q s1|m s1]; [|done].
    rewrite bind_run. simpl.
    apply (IH _ _ _ n err); [|done].
    destruct (decide (n = c)) as [->|Hne]; [congruence | lia].
  - by rewrite bind_run.
Qed.

Lemma main_loop_panicked (W : nat -> Env) (fuel : nat) :
  forall c p s,
    panicked (main_loop W fuel c p s) = true ->
    exists n config q s1,
      c <= n < c + fuel
      ∧ LoadConfig (W n) "config.yaml" = Ok config
      ∧ panicked (MonitorDomains (W n) config q s1) = true.
Proof.
  induction fuel as [|fuel IH]; intros c p s Hpanic; [done|].
  simpl in Hpanic.
  destruct (LoadConfig (W c) "config.yaml") as [config|err] eqn:Hload;
    [|done].
  rewrite bind_run in Hpanic.
  destruct (MonitorDomains (W c) config p s) as [q s1|m s1] eqn:Hcycle.
  - rewrite bind_run in Hpanic. simpl in Hpanic.
    destruct (IH _ _ _ Hpanic) as (n & config' & q' & s' & Hn & Hl & Hp).
    exists n, config', q', s'. split; [lia | done].
  - exists c, config, p, s. split; [lia|]. split; [done|].
    by rewrite Hcycle.
Qed.

(** C5, as the code has it.  [main] returns only because a load of the
    configuration failed, in the first cycle or in a later one, after every
    earlier load succeeded, and its last words are that error.  A failed
    load is never skipped: when the load of cycle [n] fails the loop is not
    turning any more once cycle [n] is over.  While every load succeeds the
    loop keeps turning, unless a cycle panics; and [main] panics only when
    a call of [MonitorDomains] does. *)
Theorem main_returns_on_any_load_failure (W : nat -> Env) (fuel : nat)
    (s : State) :
  (forall s',
     main W fuel s = Done Returned s' ->
     exists n err,
       n < fuel
       ∧ LoadConfig (W n) "config.yaml" = Err err
       ∧ (forall k, k < n -> is_ok (LoadConfig (W k) "config.yaml") = true)
       ∧ last (stdout s') = Some ("Error loading config: " +:+ err +:+ nl))
  ∧ (forall n err,
       n < fuel ->
       LoadConfig (W n) "config.yaml" = Err err ->
       forall s', main W fuel s ≠ Done Running s')
  ∧ ((forall k, k < fuel ->
        is_ok (LoadConfig (W k) "config.yaml") = true) ->
     (exists s', main W fuel s = Done Running s')
     ∨ panicked (main W fuel s) = true)
  ∧ (panicked (main W fuel s) = true ->
     exists n config q s1,
       n < fuel
       ∧ LoadConfig (W n) "config.yaml" = Ok config
       ∧ panicked (MonitorDomains (W n) config q s1) = true).
Proof.
  unfold main. split; [|split; [|split]].
  - intros s' Hrun. rewrite bind_run, make_map_run in Hrun.
    destruct (main_loop_returned _ _ _ _ _ _ Hrun)
      as (n & err & Hn & Herr & Hbefore & Hout).
    exists n, err. split; [lia|]. split; [done|]. split; [|done].
    intros k Hk. apply Hbefore. lia.
  - intros n err Hn Herr s'. rewrite bind_run, make_map_run.
    apply (main_loop_not_running _ _ _ _ _ n err); [lia | done].
  - intros Hall. rewrite bind_run, make_map_run.
    destruct (main_loop W fuel 0 _ _) as [[|] s'|msg s'] eqn:Hrun.
    + destruct (main_loop_returned _ _ _ _ _ _ Hrun)
        as (n & err & Hn & Herr & _).
      specialize (Hall n). rewrite Herr in Hall.
      discriminate Hall. lia.
    + left. by exists s'.
    + by right.
  - rewrite bind_run, make_map_run. intros Hpanic.
    destruct (main_loop_panicked _ _ _ _ _ Hpanic)
      as (n & config & q & s1 & Hn & Hload & Hp).
    exists n, config, q, s1. split; [lia | done].
Qed.

(** The run of the example below, read through the theorem: the loop
    returned, so some load failed. *)
Lemma main_returns_on_any_load_failure_witness :
  exists n err,
    n < 3
    ∧ LoadConfig (Examples.flaky n) "config.yaml" = Err err
    ∧ (forall k, k < n ->
         is_ok (LoadConfig (Examples.flaky k) "config.yaml") = true)
    ∧ last (stdout
              {| heap := [∅; ∅];
                 stdout := [ "Error loading config: "
                               +:+ "open config.yaml: no such file or directory"
                               +:+ nl ];
                 posts := []; sleeps := [300000000000%Z] |})
      = Some ("Error loading config: " +:+ err +:+ nl).
Proof.
  apply (proj1 (main_returns_on_any_load_failure Examples.flaky 3
                  Monitor.initial)).
  reflexivity.
Defined.

(** C5 as written fails: the file loads in the first cycle, cannot be read
    in the second, and would load again in the third; [main] has returned
    in the second cycle, after one sleep of five minutes. *)
Lemma reload_failure_is_fatal :
  is_ok (LoadConfig (Examples.flaky 0) "config.yaml") = true
  ∧ is_ok (LoadConfig (Examples.flaky 1) "config.yaml") = false
  ∧ is_ok (LoadConfig (Examples.flaky 2) "config.yaml") = true
  ∧ main Examples.flaky 3 Monitor.initial
    = Done Returned
        {| heap := [∅; ∅];
           stdout := [ "Error loading config: "
                         +:+ "open config.yaml: no such file or directory"
                         +:+ nl ];
           posts := []; sleeps := [300000000000%Z] |}.
Proof. split; [done|]. split; [done|]. split; [done|]. by vm_compute. Qed.

(* ===================================================================== *)
(** ** Further properties of the program *)
(* ===================================================================== *)

(** *** One cycle *)

(** X4.  A call of [MonitorDomains] panics exactly in two cases: the WHOIS
    answer of some configured entry is fetched and parsed and names no
    registrar; or some key of the previous map was not observed this cycle
    and a discord sink is among the sinks configured for that name or among
    the global sinks.  In particular the first case needs no discord sink
    and no previous state. *)
Theorem MonitorDomains_panics_iff (E : Env) (config : Config) (p : mapref)
    (s : State) :
  p < length (heap s) ->
  range_ok E ->
  panicked (MonitorDomains E config p s) = true ↔
  (exists i d, Domains config !! i = Some d ∧ registrarless E i d)
  ∨ (exists name w,
       is_Some (deref (heap s) p !! name)
       ∧ next E config !! name = None
       ∧ w ∈ own_sinks config name ++ Webhooks_ config
       ∧ Type_ w = "discord").
Proof.
  intros Hp Hr. rewrite (MonitorDomains_cycle E config p s Hp).
  rewrite cycle_panicked, Detect_crashes, interrupted_true.
  assert (Hin : forall name,
    name ∈ rangeKeys E (deref (heap s) p)
    ↔ is_Some (deref (heap s) p !! name)).
  { intros name.
    rewrite (Hr (deref (heap s) p)), elem_of_elements. apply elem_of_dom. }
  split; (intros [H|(name & w & H1 & H2)];
          [by left | right; exists name, w; split; [by apply Hin | done]]).
Qed.

Lemma MonitorDomains_panics_iff_witness :
  panicked (MonitorDomains Examples.unregistered Examples.once 0
              (Examples.after_cycle ∅)) = true ↔
  (exists i d, Domains Examples.once !! i = Some d
               ∧ registrarless Examples.unregistered i d)
  ∨ (exists name w,
       is_Some (deref (heap (Examples.after_cycle ∅)) 0 !! name)
       ∧ next Examples.unregistered Examples.once !! name = None
       ∧ w ∈ own_sinks Examples.once name ++ Webhooks_ Examples.once
       ∧ Type_ w = "discord").
Proof.
  apply (MonitorDomains_panics_iff Examples.unregistered Examples.once 0
           (Examples.after_cycle ∅)).
  - simpl. lia.
  - by apply range_ok_elements.
Defined.

(** X5.  A call of [MonitorDomains] that does not panic returns the new
    map, sleeps never, and hands to the HTTP client exactly this: for every
    transition it detects, in order (configured domains first, then removed
    ones), one request per deliverable sink of the event, the domain's own
    sinks before the global ones, each addressed to the sink's URL and
    carrying the event's message.  Sinks of an unknown kind or with a URL
    that no request can be built for get nothing; what the sinks answer
    changes nothing. *)
Theorem MonitorDomains_wire (E : Env) (config : Config) (p : mapref)
    (s : State) :
  p < length (heap s) ->
  panicked (MonitorDomains E config p s) = false ->
  exists s' reqs,
    MonitorDomains E config p s = Done (length (heap s)) s'
    ∧ posts s' = posts s ++ reqs
    ∧ on_wire <$> reqs
      = flat_map (step_wire E config)
                 (Detect E config (deref (heap s) p)).1
    ∧ sleeps s' = sleeps s.
Proof.
  intros Hp Hnp.
  destruct (MonitorDomains_run E config p s Hp Hnp)
    as (_ & s' & reqs & lines & Hrun & Hh & Hs & Hposts & Hw & Ho).
  by exists s', reqs.
Qed.

Lemma MonitorDomains_wire_witness :
  exists s' reqs,
    MonitorDomains Examples.online Examples.mixed 0
      (Examples.after_cycle Examples.both_known)
    = Done (length (heap (Examples.after_cycle Examples.both_known))) s'
    ∧ posts s' = posts (Examples.after_cycle Examples.both_known) ++ reqs
    ∧ on_wire <$> reqs
      = flat_map (step_wire Examples.online Examples.mixed)
          (Detect Examples.online Examples.mixed
             (deref (heap (Examples.after_cycle Examples.both_known)) 0)).1
    ∧ sleeps s' = sleeps (Examples.after_cycle Examples.both_known).
Proof.
  apply (MonitorDomains_wire Examples.online Examples.mixed 0
           (Examples.after_cycle Examples.both_known)).
  - simpl. lia.
  - by vm_compute.
Defined.

(** The wire of that run, written out. *)
Example MonitorDomains_wire_run :
  flat_map (step_wire Examples.online Examples.mixed)
    (Detect Examples.online Examples.mixed Examples.both_known).1
  = [ ("https://discord.example/api/webhooks/2",
       Some "Domain information changed for: d1.example");
      ("https://outlook.example/webhook/1",
       Some "Domain information changed for: d1.example");
      ("https://outlook.example/webhook/1",
       Some "Monitoring finished for domain: e.example") ].
Proof. by vm_compute. Qed.

(** X1.  Dispatching an event that carries an observation to a list of
    sinks never panics and never stops early: every deliverable sink of the
    list gets exactly one request, in list order, at its URL and with the
    message as its summary, whatever the sinks before it answered; the
    other sinks get none.  Each line printed meanwhile reports a failed
    delivery for the domain.  The state maps and the sleeps are not
    touched. *)
Theorem sendAll_with_observation (E : Env) (ws : list Webhook)
    (name msg : string) (o : DomainInfo) (s : State) :
  exists s' reqs lines,
    sendAll E ws name msg (Some o) s = Done () s'
    ∧ heap s' = heap s ∧ sleeps s' = sleeps s
    ∧ posts s' = posts s ++ reqs
    ∧ on_wire <$> reqs
      = expected msg <$> filter (fun w => deliverable E w = true) ws
    ∧ stdout s' = stdout s ++ lines
    ∧ Forall (fun line => exists err,
                line = "Error sending webhook for " +:+ name +:+ ": "
                         +:+ err +:+ nl) lines.
Proof. by apply sendAll_run. Qed.

(** X2.  A call of [SendWebhook] that does not meet a nil observation in
    the discord branch returns, touching nothing but the list of requests.
    For a sink that is not deliverable it sends nothing and returns an
    error, which names the kind when the kind is unknown.  For a deliverable
    sink it hands exactly one POST request with a JSON content type to the
    client, at the sink's URL and with the message as summary, and never a
    second one; it returns the transport error if there is one, an error
    that quotes the status if the status is 300 or more, and nil for every
    status below 300. *)
Theorem SendWebhook_outcome (E : Env) (w : Webhook) (msg : string)
    (info : option DomainInfo) (s : State) :
  (info = None -> Type_ w ≠ "discord") ->
  exists r s',
    SendWebhook E w msg info s = Done r s'
    ∧ heap s' = heap s ∧ stdout s' = stdout s ∧ sleeps s' = sleeps s
    ∧ ((deliverable E w = false
        ∧ posts s' = posts s
        ∧ is_ok r = false
        ∧ (supported w = false ->
           r = Err ("unsupported webhook type: " +:+ Type_ w)))
       ∨ (deliverable E w = true
          ∧ exists req,
              posts s' = posts s ++ [req]
              ∧ on_wire req = expected msg w
              ∧ Method req = "POST"
              ∧ ContentType req = "application/json"
              ∧ r = match client_Do E (length (posts s)) req with
                    | Err err => Err err
                    | Ok code =>
                        if (300 <=? code)%Z
                        then Err ("received non-2xx response status: "
                                    +:+ fmt_d code)
                        else Ok ()
                    end)).
Proof. apply SendWebhook_run. Qed.

Lemma SendWebhook_outcome_witness :
  exists r s',
    SendWebhook Examples.silent Examples.teams_hook
      (finished_message "example.com") None Monitor.initial = Done r s'
    ∧ heap s' = [] ∧ stdout s' = [] ∧ sleeps s' = []
    ∧ ((deliverable Examples.silent Examples.teams_hook = false
        ∧ posts s' = []
        ∧ is_ok r = false
        ∧ (supported Examples.teams_hook = false ->
           r = Err ("unsupported webhook type: "
                      +:+ Type_ Examples.teams_hook)))
       ∨ (deliverable Examples.silent Examples.teams_hook = true
          ∧ exists req,
              posts s' = [] ++ [req]
              ∧ on_wire req
                = expected (finished_message "example.com")
                           Examples.teams_hook
              ∧ Method req = "POST"
              ∧ ContentType req = "application/json"
              ∧ r = match client_Do Examples.silent 0 req with
                    | Err err => Err err
                    | Ok code =>
                        if (300 <=? code)%Z
                        then Err ("received non-2xx response status: "
                                    +:+ fmt_d code)
                        else Ok ()
                    end)).
Proof.
  apply (SendWebhook_outcome Examples.silent Examples.teams_hook
           (finished_message "example.com") None Monitor.initial).
  intros _. discriminate.
Defined.

(** *** One entry of the configuration *)

(** What [observe] is for an entry whose answer is parsed and names a
    registrar. *)
Lemma observe_registered (E : Env) (i : nat) (d : Domain)
    (response : string) (result : WhoisInfo) (registrar : Contact) :
  whois_Whois E i (Name d) = Ok response ->
  whoisparser_Parse E response = Ok result ->
  Registrar result = Some registrar ->
  observe E i d
  = match net_LookupIP E i (Name d) with
    | Err err =>
        Skipped ("Error resolving IP address for " +:+ Name d +:+ ": "
                   +:+ err +:+ nl)
    | Ok [] =>
        Skipped ("Error resolving IP address for " +:+ Name d +:+ ": "
                   +:+ "no IP addresses found for domain " +:+ Name d
                   +:+ nl)
    | Ok (ip :: _) =>
        Observed
          {| Domain_ := Name d;
             RegistrarTag := Contact_Name registrar;
             NameServers := Domain_NameServers result;
             CreationDate := normalDate E (Domain_CreatedDate result);
             ExpiryDate := normalDate E (Domain_ExpirationDate result);
             UpdatedDate := normalDate E (Domain_UpdatedDate result);
             IPAddress := ip |}
    end.
Proof.
  intros Hw Hparse Hreg. unfold observe.
  rewrite Hw, (ParseWHOIS_Some E _ _ _ _ Monitor.initial Hparse Hreg).
  simpl. unfold ResolveIP.
  by destruct (net_LookupIP E i (Name d)) as [[|ip rest]|err].
Qed.

(** X3.  What the first loop does with one entry.  When the WHOIS fetch
    fails, or the parse, or the DNS lookup, or the lookup returns no
    address, it prints one line that names the domain and the failure and
    does nothing else.  When the answer is parsed and names no registrar,
    it panics on the spot, with nothing printed, stored or sent.  Otherwise
    the entry is observed: the observation carries the entry's name, the
    registrar, the name servers, the three normalised dates and the first
    address; its fingerprint is stored under the name in the current map
    and the previous map is left alone; and the client is handed an Enabled
    notification for each deliverable sink of the entry, then of the global
    list, when the previous map has no entry for the name, a Changed
    notification for each when its entry differs from the fingerprint, and
    nothing when it is equal. *)
Theorem entry_outcomes (E : Env) (config : Config) (p c : mapref) (i : nat)
    (d : Domain) (s : State) :
  p ≠ c ->
  c < length (heap s) ->
  let r := monitorDomain E config p c i d s in
  match whois_Whois E i (Name d) with
  | Err err =>
      r = Done () (printed ("Error fetching WHOIS information for "
                              +:+ Name d +:+ ": " +:+ err +:+ nl) s)
  | Ok response =>
      match whoisparser_Parse E response with
      | Err err =>
          r = Done () (printed ("Error parsing WHOIS information for "
                                  +:+ Name d +:+ ": " +:+ err +:+ nl) s)
      | Ok result =>
          match Registrar result with
          | None => r = Panicked nil_dereference s
          | Some registrar =>
              match net_LookupIP E i (Name d) with
              | Err err =>
                  r = Done () (printed ("Error resolving IP address for "
                                          +:+ Name d +:+ ": " +:+ err
                                          +:+ nl) s)
              | Ok [] =>
                  r = Done () (printed ("Error resolving IP address for "
                                          +:+ Name d +:+ ": "
                                          +:+ "no IP addresses found for domain "
                                          +:+ Name d +:+ nl) s)
              | Ok (ip :: _) =>
                  exists o s' reqs,
                    r = Done () s'
                    ∧ o = {| Domain_ := Name d;
                             RegistrarTag := Contact_Name registrar;
                             NameServers := Domain_NameServers result;
                             CreationDate :=
                               normalDate E (Domain_CreatedDate result);
                             ExpiryDate :=
                               normalDate E (Domain_ExpirationDate result);
                             UpdatedDate :=
                               normalDate E (Domain_UpdatedDate result);
                             IPAddress := ip |}
                    ∧ deref (heap s') c
                      = <[Name d := HashDomainInfo o]> (deref (heap s) c)
                    ∧ deref (heap s') p = deref (heap s) p
                    ∧ posts s' = posts s ++ reqs
                    ∧ on_wire <$> reqs
                      = match deref (heap s) p !! Name d with
                        | None =>
                            expected (enabled_message (Name d))
                              <$> filter (fun w => deliverable E w = true)
                                         (Webhooks d ++ Webhooks_ config)
                        | Some fp =>
                            if decide (fp = HashDomainInfo o) then []
                            else
                              expected (changed_message (Name d))
                                <$> filter (fun w => deliverable E w = true)
                                           (Webhooks d ++ Webhooks_ config)
                        end
              end
          end
      end
  end.
Proof.
  intros Hpc Hc r. subst r.
  destruct (whois_Whois E i (Name d)) as [response|err] eqn:Hw.
  2: { rewrite monitorDomain_observe. unfold observe. by rewrite Hw. }
  destruct (whoisparser_Parse E response) as [result|err] eqn:Hparse.
  2: { rewrite monitorDomain_observe. unfold observe, ParseWHOIS.
       by rewrite Hw, Hparse. }
  destruct (Registrar result) as [registrar|] eqn:Hreg.
  2: { rewrite monitorDomain_observe. unfold observe.
       by rewrite Hw, (ParseWHOIS_None E _ _ result _ Hparse Hreg). }
  pose proof (observe_registered E i d response result registrar
                Hw Hparse Hreg) as Hobs.
  destruct (net_LookupIP E i (Name d)) as [[|ip rest]|err] eqn:Hl.
  1, 3: by rewrite monitorDomain_observe, Hobs.
  destruct (monitorDomain_run E config p c i d s Hpc Hc)
    as (s1 & Hp1 & Hh1 & Hrun); [by rewrite Hobs|].
  destruct (performAll_run E config
              (liveStep E (deref (heap s) p) i d) s)
    as (s1' & reqs & lines & Hp1' & _ & _ & Hposts & Hwire & _).
  { unfold liveStep, classify. rewrite Hobs.
    destruct (deref (heap s) p !! Name d); [case_decide|];
      by repeat constructor. }
  rewrite Hp1 in Hp1'. injection Hp1' as <-.
  eexists _, _, reqs. rewrite Hrun. unfold stored. rewrite Hobs.
  split; [reflexivity|]. split; [reflexivity|].
  split; [simpl; by apply deref_insert_eq|].
  split; [simpl; by apply deref_insert_ne|].
  split; [done|].
  rewrite Hwire. unfold liveStep, classify. rewrite Hobs.
  destruct (deref (heap s) p !! Name d); [case_decide|]; simpl;
    by rewrite ?app_nil_r.
Qed.

Lemma entry_outcomes_witness :
  let s := {| heap := [∅; ∅]; stdout := []; posts := []; sleeps := [] |} in
  exists o s' reqs,
    monitorDomain Examples.online Examples.once 0 1 0 Examples.example_com s
    = Done () s'
    ∧ o = {| Domain_ := "example.com";
             RegistrarTag := "Example Registrar";
             NameServers := ["ns1.example.net"; "ns2.example.net"];
             CreationDate := normalDate Examples.online "";
             ExpiryDate := normalDate Examples.online "";
             UpdatedDate := normalDate Examples.online "";
             IPAddress := "192.0.2.7" |}
    ∧ deref (heap s') 1 = <["example.com" := HashDomainInfo o]> ∅
    ∧ deref (heap s') 0 = ∅
    ∧ posts s' = [] ++ reqs
    ∧ on_wire <$> reqs
      = expected (enabled_message "example.com")
          <$> filter (fun w => deliverable Examples.online w = true)
                     ([] ++ [Examples.teams_hook]).
Proof.
  assert (Hpc : 0 ≠ 1) by done.
  assert (Hc : 1 < 2) by lia.
  exact (entry_outcomes Examples.online Examples.once 0 1 0
           Examples.example_com
           {| heap := [∅; ∅]; stdout := []; posts := []; sleeps := [] |}
           Hpc Hc).
Defined.

(** *** Cycles that follow one another *)

Lemma interrupted_ext (E1 E2 : Env) (ds : list Domain) : forall i,
  (forall j d, observe E2 j d = observe E1 j d) ->
  interrupted E2 i ds = interrupted E1 i ds.
Proof.
  induction ds as [|d ds IH]; intros i Hobs; [done|].
  simpl. rewrite Hobs. destruct (observe E1 i d); [by apply IH..|done].
Qed.

(** X6.  Two cycles in a row over pairwise distinct names in which every
    entry has the same outcome: when the first cycle returns, the second
    one returns too, hands no request at all to the HTTP client, and the
    map it returns equals the one it was given. *)
Theorem unchanged_cycle_is_silent (E1 E2 : Env) (config : Config)
    (p q : mapref) (s s1 : State) :
  p < length (heap s) ->
  range_ok E2 ->
  NoDup (Name <$> Domains config) ->
  (forall i d, observe E2 i d = observe E1 i d) ->
  MonitorDomains E1 config p s = Done q s1 ->
  exists s2,
    MonitorDomains E2 config q s1 = Done (S q) s2
    ∧ posts s2 = posts s1
    ∧ deref (heap s2) (S q) = deref (heap s1) q.
Proof.
  intros Hp Hr Hnd Hobs Hfirst.
  destruct (MonitorDomains_returns E1 config p s q s1 Hp Hfirst)
    as (-> & Hheap1 & Hq & Hlt & Hint1).
  assert (Hint2 : interrupted E2 0 (Domains config) = false)
    by (by rewrite (interrupted_ext E1 E2)).
  rewrite <- (next_ext E1 E2 config Hobs) in Hq.
  rewrite (MonitorDomains_cycle E2 config _ s1 Hlt).
  assert (Hnone : forall name,
    events_about name (Detect E2 config (deref (heap s1) (length (heap s)))).1
    = []).
  { intros name.
    rewrite (Detect_events_about E2 config _ name Hr Hnd Hint2), Hq.
    rewrite next_lookup.
    destruct (successes_at_most_one E2 name (Domains config) Hnd)
      as [->|(d & o & -> & Hn)]; simpl; [done|].
    by rewrite decide_True. }
  destruct (reports_are_quiet E2 config _
              (no_events_only_reports _ Hnone
                 (uninterrupted_no_Crash E2 config _ Hint2)))
    as [Hsafe Hquiet].
  destruct (cycle_run E2 config _ s1 Hsafe)
    as (s2 & reqs & lines & Hrun & Hh & _ & Hposts & Hw & _).
  rewrite Hquiet in Hw. apply fmap_nil_inv in Hw as ->.
  exists s2. rewrite Hrun.
  assert (Hlen : length (heap s1) = S (length (heap s))).
  { rewrite Hheap1, length_app. simpl. lia. }
  rewrite Hlen. split; [done|]. split; [by rewrite Hposts, app_nil_r|].
  rewrite Hq. unfold deref.
  by rewrite Hh, <- Hlen, list_lookup_middle.
Qed.

Lemma unchanged_cycle_is_silent_witness :
  exists s2,
    MonitorDomains Examples.online Examples.once 1
      (final (MonitorDomains Examples.online Examples.once 0
                (Examples.after_cycle ∅)))
    = Done 2 s2
    ∧ posts s2
      = posts (final (MonitorDomains Examples.online Examples.once 0
                        (Examples.after_cycle ∅)))
    ∧ deref (heap s2) 2
      = deref (heap (final (MonitorDomains Examples.online Examples.once 0
                              (Examples.after_cycle ∅)))) 1.
Proof.
  apply (unchanged_cycle_is_silent Examples.online Examples.online
           Examples.once 0 1 (Examples.after_cycle ∅)).
  - simpl. lia.
  - by apply range_ok_elements.
  - simpl. repeat constructor. by inversion 1.
  - done.
  - by vm_compute.
Defined.

Lemma filter_name_absent (name : string) (ds : list Domain) :
  name ∉ Name <$> ds -> filter (fun d => Name d = name) ds = [].
Proof.
  induction ds as [|d ds IH]; intros Hn; [done|].
  rewrite fmap_cons, not_elem_of_cons in Hn. destruct Hn as [Hd Hn].
  rewrite filter_cons, decide_False by done. by apply IH.
Qed.

(** With pairwise distinct names, the sinks configured for the name of an
    entry are the sinks of that entry. *)
Lemma own_sinks_NoDup (config : Config) (i : nat) (d : Domain) :
  NoDup (Name <$> Domains config) ->
  Domains config !! i = Some d ->
  own_sinks config (Name d) = Webhooks d.
Proof.
  unfold own_sinks. revert i.
  induction (Domains config) as [|d' ds IH]; intros i Hnd Hi; [done|].
  rewrite fmap_cons, NoDup_cons in Hnd. destruct Hnd as [Hd' Hnd].
  rewrite filter_cons. destruct i as [|i]; simpl in Hi.
  - injection Hi as ->. rewrite decide_True by done.
    rewrite (filter_name_absent _ _ Hd'). simpl. by rewrite app_nil_r.
  - rewrite decide_False; [by apply (IH i)|].
    intros Heq. apply Hd'. rewrite Heq.
    apply list_elem_of_fmap. exists d. split; [done|].
    by apply (list_elem_of_lookup_2 _ i).
Qed.

(** With pairwise distinct names, what the cycle observed of the name of
    an entry is what it observed of that entry. *)
Lemma successes_of_entry (E : Env) (config : Config) (i : nat) (d : Domain) :
  NoDup (Name <$> Domains config) ->
  interrupted E 0 (Domains config) = false ->
  Domains config !! i = Some d ->
  successes E (Name d) 0 (Domains config)
  = match observe E i d with
    | Observed o => [(d, o)]
    | _ => []
    end.
Proof.
  intros Hnd Hint Hi.
  assert (Hsame : forall d' o',
    (d', o') ∈ successes E (Name d) 0 (Domains config) ->
    d' = d ∧ observe E i d = Observed o').
  { intros d' o' Hin.
    apply successes_elem in Hin as (j & Hj & Hn & Ho). simpl in Ho.
    assert (j = i) as ->.
    { apply (NoDup_lookup (Name <$> Domains config) j i (Name d));
        [done| |]; rewrite list_lookup_fmap.
      - by rewrite Hj, <- Hn.
      - by rewrite Hi. }
    rewrite Hi in Hj. injection Hj as <-. done. }
  destruct (successes_at_most_one E (Name d) (Domains config) Hnd)
    as [Hnil|(d' & o' & Hone & _)].
  - rewrite Hnil. destruct (observe E i d) as [o| |] eqn:Hobs; [|done..].
    pose proof (elem_successes E (Name d) (Domains config) 0 i d o
                  Hint Hi eq_refl Hobs) as Hin.
    rewrite Hnil in Hin. by inversion Hin.
  - rewrite Hone. destruct (Hsame d' o') as [-> ->]; [|done].
    rewrite Hone. by left.
Qed.

(** X8.  A configured domain that is in the previous map and whose entry
    is skipped in a cycle (its fetch, parse or lookup fails) is reported as
    finished, to its own sinks and the global ones, and left out of the map
    the cycle returns.  When the next cycle observes it again, it is
    reported as enabled, to the same sinks, whatever its fingerprint: one
    failed fetch of an unchanged domain gives a Removed and an Enabled
    notification, never a Changed one. *)
Theorem failed_fetch_then_recovery (E1 E2 : Env) (config : Config)
    (p q : mapref) (s s1 : State) (i : nat) (d : Domain)
    (fp line : string) (o : DomainInfo) :
  p < length (heap s) ->
  range_ok E1 ->
  range_ok E2 ->
  NoDup (Name <$> Domains config) ->
  Domains config !! i = Some d ->
  deref (heap s) p !! Name d = Some fp ->
  observe E1 i d = Skipped line ->
  MonitorDomains E1 config p s = Done q s1 ->
  observe E2 i d = Observed o ->
  panicked (MonitorDomains E2 config q s1) = false ->
  exists reqs1 s2 reqs2,
    posts s1 = posts s ++ reqs1
    ∧ filter (fun x => about (Name d) x = true) (on_wire <$> reqs1)
      = expected (finished_message (Name d))
          <$> filter (fun w => deliverable E1 w = true)
                     (Webhooks d ++ Webhooks_ config)
    ∧ deref (heap s1) q !! Name d = None
    ∧ MonitorDomains E2 config q s1 = Done (S q) s2
    ∧ posts s2 = posts s1 ++ reqs2
    ∧ filter (fun x => about (Name d) x = true) (on_wire <$> reqs2)
      = expected (enabled_message (Name d))
          <$> filter (fun w => deliverable E2 w = true)
                     (Webhooks d ++ Webhooks_ config)
    ∧ deref (heap s2) (S q) !! Name d = Some (HashDomainInfo o).
Proof.
  intros Hp Hr1 Hr2 Hnd Hi Hprev Hskip Hfirst Hback Hnp2.
  assert (Hnp1 : panicked (MonitorDomains E1 config p s) = false)
    by (by rewrite Hfirst).
  destruct (MonitorDomains_run E1 config p s Hp Hnp1)
    as (Hint1 & s1' & reqs1 & lines1 & Hrun1 & Hh1 & _ & Hposts1 & Hw1 & _).
  rewrite Hfirst in Hrun1. injection Hrun1 as -> <-.
  assert (Hq : length (heap s) < length (heap s1)).
  { rewrite Hh1, length_app. simpl. lia. }
  destruct (MonitorDomains_run E2 config _ s1 Hq Hnp2)
    as (Hint2 & s2 & reqs2 & lines2 & Hrun2 & Hh2 & _ & Hposts2 & Hw2 & _).
  assert (Hlen : length (heap s1) = S (length (heap s))).
  { rewrite Hh1, length_app. simpl. lia. }
  assert (Hmap1 : deref (heap s1) (length (heap s)) = next E1 config).
  { unfold deref. by rewrite Hh1, list_lookup_middle. }
  pose proof (successes_of_entry E1 config i d Hnd Hint1 Hi) as Hs1.
  pose proof (successes_of_entry E2 config i d Hnd Hint2 Hi) as Hs2.
  rewrite Hskip in Hs1. rewrite Hback in Hs2.
  assert (Hgone : next E1 config !! Name d = None)
    by (by rewrite next_lookup, Hs1).
  exists reqs1, s2, reqs2. split; [done|]. split.
  { rewrite Hw1, wire_about.
    rewrite (Detect_events_about E1 config _ _ Hr1 Hnd Hint1), Hs1, Hprev.
    simpl. by rewrite app_nil_r, (own_sinks_NoDup config i d Hnd Hi). }
  split; [by rewrite Hmap1|]. rewrite Hlen in Hrun2.
  split; [done|]. split; [done|]. split.
  { rewrite Hw2, wire_about.
    rewrite (Detect_events_about E2 config _ _ Hr2 Hnd Hint2), Hs2, Hmap1,
      Hgone.
    simpl. by rewrite app_nil_r. }
  unfold deref. rewrite Hh2, <- Hlen, list_lookup_middle by done. simpl.
  by rewrite next_lookup, Hs2.
Qed.

Lemma failed_fetch_then_recovery_witness :
  let s := Examples.after_cycle {[ "example.com" := "fingerprint" ]} in
  let s1 := final (MonitorDomains Examples.silent Examples.once 0 s) in
  exists reqs1 s2 reqs2,
    posts s1 = posts s ++ reqs1
    ∧ filter (fun x => about "example.com" x = true) (on_wire <$> reqs1)
      = expected (finished_message "example.com")
          <$> filter (fun w => deliverable Examples.silent w = true)
                     ([] ++ [Examples.teams_hook])
    ∧ deref (heap s1) 1 !! "example.com" = None
    ∧ MonitorDomains Examples.online Examples.once 1 s1 = Done 2 s2
    ∧ posts s2 = posts s1 ++ reqs2
    ∧ filter (fun x => about "example.com" x = true) (on_wire <$> reqs2)
      = expected (enabled_message "example.com")
          <$> filter (fun w => deliverable Examples.online w = true)
                     ([] ++ [Examples.teams_hook])
    ∧ deref (heap s2) 2 !! "example.com"
      = Some (HashDomainInfo
                (set_IPAddress
                   (Examples.observed ["ns1.example.net"; "ns2.example.net"])
                   "192.0.2.7")).
Proof.
  apply (failed_fetch_then_recovery Examples.silent Examples.online
           Examples.once 0 1
           (Examples.after_cycle {[ "example.com" := "fingerprint" ]})
           _ 0 Examples.example_com "fingerprint"
           ("Error fetching WHOIS information for example.com: "
              +:+ "whois: connect to whois server failed" +:+ nl)).
  - simpl. lia.
  - by apply range_ok_elements.
  - by apply range_ok_elements.
  - simpl. repeat constructor. by inversion 1.
  - reflexivity.
  - by vm_compute.
  - by vm_compute.
  - by vm_compute.
  - by vm_compute.
  - by vm_compute.
Defined.

(** X7.  With no domain configured, a call whose global sinks include no
    discord sink returns an empty map and tells the global sinks, and only
    them, that every key of the previous map is finished: for each key, in
    the order [range] visits them, one request per deliverable global
    sink. *)
Theorem empty_configuration (E : Env) (config : Config) (p : mapref)
    (s : State) :
  p < length (heap s) ->
  Domains config = [] ->
  (forall w, w ∈ Webhooks_ config -> Type_ w ≠ "discord") ->
  exists s' reqs,
    MonitorDomains E config p s = Done (length (heap s)) s'
    ∧ deref (heap s') (length (heap s)) = ∅
    ∧ posts s' = posts s ++ reqs
    ∧ on_wire <$> reqs
      = flat_map
          (fun name =>
             expected (finished_message name)
               <$> filter (fun w => deliverable E w = true)
                          (Webhooks_ config))
          (rangeKeys E (deref (heap s) p)).
Proof.
  intros Hp Hnone Hnd. rewrite (MonitorDomains_cycle E config p s Hp).
  assert (Hnext : next E config = ∅) by (unfold next; by rewrite Hnone).
  assert (Hsteps : (Detect E config (deref (heap s) p)).1
                   = (fun name => Emit (Removed name))
                       <$> rangeKeys E (deref (heap s) p)).
  { unfold Detect, removedSteps. simpl. rewrite Hnone, Hnext. simpl.
    f_equal. induction (rangeKeys E (deref (heap s) p)) as [|k l IH];
      [done|].
    rewrite filter_cons, decide_True by apply lookup_empty.
    by rewrite IH. }
  assert (Hown : forall name, own_sinks config name = []).
  { intros name. unfold own_sinks. by rewrite Hnone. }
  destruct (cycle_run E config p s)
    as (s' & reqs & lines & Hrun & Hh & _ & Hposts & Hw & _).
  { rewrite Hsteps. apply Forall_fmap, Forall_forall. intros name _.
    simpl. rewrite Hown. by apply existsb_is_discord_false. }
  exists s', reqs. split; [done|]. split.
  { unfold deref. by rewrite Hh, list_lookup_middle, Hnext. }
  split; [done|]. rewrite Hw, Hsteps, flat_map_fmap.
  apply flat_map_ext. intros name. simpl. by rewrite Hown.
Qed.

Lemma empty_configuration_witness :
  exists s' reqs,
    MonitorDomains Examples.silent Examples.teams_only 0
      (Examples.after_cycle Examples.both_known)
    = Done (length (heap (Examples.after_cycle Examples.both_known))) s'
    ∧ deref (heap s')
            (length (heap (Examples.after_cycle Examples.both_known))) = ∅
    ∧ posts s' = posts (Examples.after_cycle Examples.both_known) ++ reqs
    ∧ on_wire <$> reqs
      = flat_map
          (fun name =>
             expected (finished_message name)
               <$> filter (fun w => deliverable Examples.silent w = true)
                          (Webhooks_ Examples.teams_only))
          (rangeKeys Examples.silent
             (deref (heap (Examples.after_cycle Examples.both_known)) 0)).
Proof.
  apply (empty_configuration Examples.silent Examples.teams_only 0
           (Examples.after_cycle Examples.both_known)).
  - simpl. lia.
  - reflexivity.
  - intros w Hw. apply list_elem_of_singleton in Hw as ->. discriminate.
Defined.

(** *** Dates that cannot be read *)

Lemma unreadable_zero (E : Env) (raw : string) :
  unreadable E raw ->
  (if decide (raw ≠ "") then parseDate E raw else zeroTime) = zeroTime.
Proof.
  intros [->|Hfail]; [done|]. case_decide; [|done].
  destruct (parseDate_from_first E raw formats)
    as [(i & format & t & Hi & Ht & _)|[_ Hzero]]; [|done].
  assert (format ∈ formats) as Hin
    by (apply list_elem_of_lookup; by exists i).
  specialize (Hfail format Hin). by rewrite Ht in Hfail.
Qed.

Lemma normalDate_unreadable (E : Env) (x y : string) :
  x = y ∨ (unreadable E x ∧ unreadable E y) ->
  normalDate E x = normalDate E y.
Proof.
  intros [->|[Hx Hy]]; [done|]. unfold normalDate.
  by rewrite (unreadable_zero E x Hx), (unreadable_zero E y Hy).
Qed.

(** X11.  Two WHOIS answers that both name a registrar, the same one, that
    agree on the name servers, and in which each of the three dates is
    either the same string or, in both answers, empty or unreadable, are
    normalised to the same observation: a date that no layout parses is the
    same as a missing one, and a change from one unreadable date to another
    is never seen. *)
Theorem unreadable_dates_collapse (E : Env) (domain respA respB : string)
    (a b : WhoisInfo) (ra rb : Contact) (s : State) :
  whoisparser_Parse E respA = Ok a ->
  whoisparser_Parse E respB = Ok b ->
  Registrar a = Some ra ->
  Registrar b = Some rb ->
  Contact_Name ra = Contact_Name rb ->
  Domain_NameServers a = Domain_NameServers b ->
  (Domain_CreatedDate a = Domain_CreatedDate b
   ∨ (unreadable E (Domain_CreatedDate a)
      ∧ unreadable E (Domain_CreatedDate b))) ->
  (Domain_ExpirationDate a = Domain_ExpirationDate b
   ∨ (unreadable E (Domain_ExpirationDate a)
      ∧ unreadable E (Domain_ExpirationDate b))) ->
  (Domain_UpdatedDate a = Domain_UpdatedDate b
   ∨ (unreadable E (Domain_UpdatedDate a)
      ∧ unreadable E (Domain_UpdatedDate b))) ->
  exists info,
    ParseWHOIS E domain respA s = Done (Ok info) s
    ∧ ParseWHOIS E domain respB s = Done (Ok info) s
    ∧ (unreadable E (Domain_CreatedDate a) -> CreationDate info = zeroTime)
    ∧ (unreadable E (Domain_ExpirationDate a) ->
       ExpiryDate info = zeroTime)
    ∧ (unreadable E (Domain_UpdatedDate a) -> UpdatedDate info = zeroTime).
Proof.
  intros Ha Hb Hra Hrb Hreg Hns Hc He Hu.
  rewrite (ParseWHOIS_Some E domain respA a ra s Ha Hra).
  rewrite (ParseWHOIS_Some E domain respB b rb s Hb Hrb).
  eexists. split; [reflexivity|]. split.
  - by rewrite Hreg, Hns, (normalDate_unreadable E _ _ Hc),
         (normalDate_unreadable E _ _ He), (normalDate_unreadable E _ _ Hu).
  - simpl. unfold normalDate.
    split; [|split]; intros Hx; by rewrite (unreadable_zero E _ Hx).
Qed.

Lemma unreadable_dates_collapse_witness :
  exists info,
    ParseWHOIS Examples.dated "example.com" "sometime in May" Monitor.initial
    = Done (Ok info) Monitor.initial
    ∧ ParseWHOIS Examples.dated "example.com" "" Monitor.initial
      = Done (Ok info) Monitor.initial
    ∧ (unreadable Examples.dated "sometime in May" ->
       CreationDate info = zeroTime)
    ∧ (unreadable Examples.dated "" -> ExpiryDate info = zeroTime)
    ∧ (unreadable Examples.dated "" -> UpdatedDate info = zeroTime).
Proof.
  apply (unreadable_dates_collapse Examples.dated "example.com"
           "sometime in May" "" _ _ _ _ Monitor.initial
           eq_refl eq_refl eq_refl eq_refl eq_refl eq_refl).
  - right. split; [right|by left].
    intros format Hf. unfold formats in Hf.
    repeat (apply elem_of_cons in Hf as [->|Hf]; [reflexivity|]).
    by inversion Hf.
  - by left.
  - by left.
Defined.

(** *** The sleep between two cycles *)

(** X10.  For a configuration that [LoadConfig] returned, the duration
    [main] sleeps for is the interval in minutes, and at least five
    minutes, as long as the interval is at most 153722867 minutes.  Above
    that, up to twice as much, the multiplication by [time.Minute] wraps
    around and the duration is negative. *)
Theorem pause_of_loaded_config (E : Env) (filePath : string)
    (config : Config) :
  LoadConfig E filePath = Ok config ->
  ((Interval config <= longest_interval)%Z ->
   pause config = (Interval config * Minute)%Z
   ∧ (5 * Minute <= pause config)%Z)
  ∧ ((longest_interval < Interval config <= 2 * longest_interval)%Z ->
     (pause config < 0)%Z).
Proof.
  intros Hload.
  assert (Hfloor : (5 <= Interval config)%Z).
  { unfold LoadConfig in Hload.
    destruct (os_Open E filePath) as [file|]; [|done].
    destruct (yaml_Decode E file) as [raw|]; [|done].
    injection Hload as <-.
    destruct (Z.ltb_spec (Interval raw) 5); simpl; lia. }
  unfold pause, wrap64, Minute, longest_interval.
  change (2 ^ 63)%Z with 9223372036854775808%Z.
  change (2 ^ 64)%Z with 18446744073709551616%Z.
  split.
  - intros Hle.
    rewrite (Z.mod_small (Interval config + _)) by lia.
    rewrite Z.mod_small by lia. lia.
  - intros [Hlt Hle].
    rewrite (Z.mod_small (Interval config + _)) by lia.
    replace (Interval config + 9223372036854775808 - 9223372036854775808)%Z
      with (Interval config) by lia.
    rewrite <- (Z_mod_plus_full _ (-1)).
    rewrite Z.mod_small by lia. lia.
Qed.

Lemma pause_of_loaded_config_witness :
  ((Interval {| Interval := 5; Domains := [];
                Webhooks_ := [Examples.teams_hook] |}
    <= longest_interval)%Z ->
   pause {| Interval := 5; Domains := [];
            Webhooks_ := [Examples.teams_hook] |}
   = (Interval {| Interval := 5; Domains := [];
                  Webhooks_ := [Examples.teams_hook] |} * Minute)%Z
   ∧ (5 * Minute
      <= pause {| Interval := 5; Domains := [];
                  Webhooks_ := [Examples.teams_hook] |})%Z)
  ∧ ((longest_interval
      < Interval {| Interval := 5; Domains := [];
                    Webhooks_ := [Examples.teams_hook] |}
      <= 2 * longest_interval)%Z ->
     (pause {| Interval := 5; Domains := [];
               Webhooks_ := [Examples.teams_hook] |} < 0)%Z).
Proof.
  apply (pause_of_loaded_config Examples.loadable "config.yaml").
  reflexivity.
Defined.

(** *** The loop, cycle after cycle *)




(** *** The sinks of a name that is no longer configured *)

Lemma sendOwn_skips (E : Env) (name msg : string) (ds : list Domain) :
  forall s, name ∉ Name <$> ds -> sendOwn E ds name msg s = Done () s.
Proof.
  induction ds as [|d ds IH]; intros s Hn; [done|].
  rewrite fmap_cons, not_elem_of_cons in Hn. destruct Hn as [Hd Hn].
  simpl. rewrite decide_False by done. rewrite bind_run. simpl.
  by apply IH.
Qed.

(** X12.  The sinks of a domain are looked up in the configuration of the
    current cycle.  For a name that no entry carries any more, the loop over
    the entries sends nothing and changes nothing, so that the Removed
    notification of a domain that was taken out of the configuration goes
    to the global sinks only, not to the sinks the domain used to have. *)
Theorem unconfigured_name_has_no_own_sinks (E : Env) (config : Config)
    (name msg : string) (s : State) :
  name ∉ Name <$> Domains config ->
  sendOwn E (Domains config) name msg s = Done () s
  ∧ event_sinks config (Removed name) = Webhooks_ config.
Proof.
  intros Hn. split; [by apply sendOwn_skips|].
  unfold event_sinks, own_sinks.
  replace (filter (fun d => Name d = name) (Domains config)) with
    (@nil Domain); [done|].
  symmetry. induction (Domains config) as [|d ds IH]; [done|].
  rewrite fmap_cons, not_elem_of_cons in Hn. destruct Hn as [Hd Hn].
  rewrite filter_cons, decide_False by done. by apply IH.
Qed.

Lemma unconfigured_name_has_no_own_sinks_witness :
  sendOwn Examples.silent (Domains Examples.mixed) "e.example"
          (finished_message "e.example") Monitor.initial
  = Done () Monitor.initial
  ∧ event_sinks Examples.mixed (Removed "e.example")
    = Webhooks_ Examples.mixed.
Proof.
  apply (unconfigured_name_has_no_own_sinks Examples.silent Examples.mixed).
  simpl. intros Hin. apply list_elem_of_singleton in Hin. discriminate.
Defined.
